(** * web-synth: oscillator banks and voices

    A shallow embedding of [src/classes/OscillatorBank.ts] and
    [src/classes/Voice.ts].  Objects are records and every method is a
    function from the state of the receiver before the call to its state
    after the call (together with the returned value when the method
    returns one).  Calls made on the host's audio nodes are recorded, in
    order, in the node they are made on. *)

From Stdlib Require Import ZArith List Lia Bool String.
From Stdlib Require Import Floats.
From stdpp Require Import base list.

Set Default Proof Using "Type".
Set Warnings "-inexact-float".

Local Open Scope Z_scope.

(** ** JavaScript values *)

(** A JavaScript [number] that holds a pitch, a time or a gain is an IEEE 754
    binary64 value. *)
Abbreviation number := float (only parsing).

(** [!x] for a number: [0], [-0] and [NaN] are falsy. *)
Definition falsy_number (x : number) : bool :=
  PrimFloat.is_zero x || PrimFloat.is_nan x.

(** [x || y] for numbers. *)
Definition number_or (x y : number) : number :=
  if falsy_number x then y else x.

(** A parameter with a default, [time = this._audioContext.currentTime]:
    the default is taken when the argument is left out. *)
Definition or_default (now : number) (time : option number) : number :=
  match time with
  | Some t => t
  | None => now
  end.

(** An index is a number too; the embedding keeps the integral ones.
    [!i] for an optional index: a missing index and [0] are falsy. *)
Definition falsy_index (i : option Z) : bool :=
  match i with
  | None => true
  | Some i => i =? 0
  end.

(** [!x] for an object that may be [undefined]: an object is truthy. *)
Definition is_undefined {A} (x : option A) : bool :=
  match x with
  | None => true
  | Some _ => false
  end.

(** [arr[i]]: [undefined] outside of [0 <= i < arr.length]. *)
Definition js_index {A} (arr : list A) (i : Z) : option A :=
  if i <? 0 then None else arr !! Z.to_nat i.

(** [arr.splice(start, deleteCount)] (ECMAScript, Array.prototype.splice
    with two arguments): the removed elements, and the array afterwards.
    A negative [start] counts from the end of the array. *)
Definition splice {A} (start deleteCount : Z) (arr : list A)
  : list A * list A :=
  let len := Z.of_nat (length arr) in
  let actualStart :=
    if start <? 0 then Z.max (len + start) 0 else Z.min start len in
  let actualDeleteCount := Z.min (Z.max deleteCount 0) (len - actualStart) in
  (take (Z.to_nat actualDeleteCount) (drop (Z.to_nat actualStart) arr),
   take (Z.to_nat actualStart) arr
     ++ drop (Z.to_nat actualStart + Z.to_nat actualDeleteCount) arr).

(** [for (let i = 0; i < n; i++) body(i)], on the state [S] the body works
    on.  Nothing is run when [n <= 0]. *)
Definition for_upto {S} (n : Z) (body : nat -> S -> S) (s : S) : S :=
  fold_left (fun s i => body i s) (seq 0 (Z.to_nat n)) s.

(** For the statements below: what [update] leaves, from the array [arr]
    and the descriptors [ds].  The elements that have a descriptor, each
    updated with its own, then one new element for each descriptor past the
    end of [arr]. *)
Definition reconciled {A D} (upd : D -> A -> A) (mk : D -> A)
    (arr : list A) (ds : list D) : list A :=
  zip_with (fun a d => upd d a) arr ds ++ map mk (drop (length arr) ds).

(** ** Types of [src/types] *)

Inductive PlayState := ready | playing | used.

#[global] Instance PlayState_eq_dec : EqDecision PlayState.
Proof. solve_decision. Defined.

(** [a === b] on play states. *)
Definition PlayState_eqb (a b : PlayState) : bool :=
  match a, b with
  | ready, ready | playing, playing | used, used => true
  | _, _ => false
  end.

Record Partial := {
  rate : number;
  amplitude : number;
  phase : number;
}.

Record SpectralLayer := { partials : list Partial }.

Abbreviation Spectrum := (list SpectralLayer) (only parsing).

Record ADSR := {
  attack : number;
  decay : number;
  sustain : number;
  release : number;
}.

(** ** Host audio nodes *)

(** The calls this code makes on a [GainNode] and on its [gain]
    parameter. *)
Inductive GainCall :=
| connect_call
| disconnect_call
| linearRampToValueAtTime (value endTime : number)
| exponentialRampToValueAtTime (value endTime : number)
| cancelScheduledValues (cancelTime : number).

(** A gain node: the calls received so far, oldest first, and what
    [gain.value] reads.  The host's renderer moves [gain.value]; no method
    below writes it. *)
Record GainNode := {
  gain_calls : list GainCall;
  gain_value : number;
}.

(** [audioContext.createGain()]: a gain of 1 and nothing scheduled. *)
Definition createGain : GainNode :=
  {| gain_calls := []; gain_value := 1%float |}.

Definition GainNode_call (c : GainCall) (g : GainNode) : GainNode :=
  {| gain_calls := gain_calls g ++ [c]; gain_value := gain_value g |}.

(** ** The Oscillator class *)

(** [src/classes/Oscillator.ts] is used by both classes below through its
    constructor, five methods and one attribute; it is taken as a
    parameter.  A method maps the oscillator before the call to the
    oscillator after it. *)
Class OscillatorClass (Oscillator : Type) := {
  (** [new Oscillator({rate, amplitude, phase, audioContext, destination})] *)
  Oscillator_new : Partial -> Oscillator;
  (** [osc.play(pitch, time)]; [time] is [None] when it is left out *)
  Oscillator_play : number -> option number -> Oscillator -> Oscillator;
  (** [osc.stop(time)] *)
  Oscillator_stop : number -> Oscillator -> Oscillator;
  (** [osc.update(partial)] *)
  Oscillator_update : Partial -> Oscillator -> Oscillator;
  (** [osc.setRate(rate)] *)
  Oscillator_setRate : number -> Oscillator -> Oscillator;
  (** [osc.rate] *)
  Oscillator_rate : Oscillator -> number;
  (** [osc.destroy()] *)
  Oscillator_destroy : Oscillator -> Oscillator;
}.

(** Modelled from the spec: the Oscillator class, of which the sources
    hold only the uses.  The spec lists its capabilities ([play(pitch,
    time)], [stop(time)], [update(partial)], [setRate(rate)], [destroy()],
    attribute [rate]); this oscillator keeps the partial it was last given
    and records the calls it receives, oldest first. *)
Module Recorder.

Inductive Call :=
| play (pitch : number) (time : option number)
| stop (time : number)
| update (partial : Partial)
| setRate (rate : number)
| destroy.

Record t := {
  partial : Partial;
  calls : list Call;
}.

Definition receive (c : Call) (o : t) : t :=
  {| partial := partial o; calls := calls o ++ [c] |}.

Definition with_rate (r : number) (p : Partial) : Partial :=
  {| rate := r; amplitude := amplitude p; phase := phase p |}.

#[global] Instance oscillator : OscillatorClass t := {|
  Oscillator_new p := {| partial := p; calls := [] |};
  Oscillator_play pitch time o := receive (play pitch time) o;
  Oscillator_stop time o := receive (stop time) o;
  Oscillator_update p o :=
    {| partial := p; calls := calls o ++ [update p] |};
  Oscillator_setRate r o :=
    {| partial := with_rate r (partial o); calls := calls o ++ [setRate r] |};
  Oscillator_rate o := rate (partial o);
  Oscillator_destroy o := receive destroy o;
|}.

End Recorder.

(** ** OscillatorBank *)

Module OscillatorBank.
Section OscillatorBank.

Context {Oscillator : Type} `{OscillatorClass Oscillator}.

Record t := {
  _gain : GainNode;
  _state : PlayState;
  _pitch : number;
  _oscillators : list Oscillator;
}.

Definition set_gain (g : GainNode) (b : t) : t :=
  {| _gain := g; _state := _state b; _pitch := _pitch b;
     _oscillators := _oscillators b |}.

Definition set_oscillators (os : list Oscillator) (b : t) : t :=
  {| _gain := _gain b; _state := _state b; _pitch := _pitch b;
     _oscillators := os |}.

(** [get state], [get oscillators], [oscillator(index)] *)
Definition state (b : t) : PlayState := _state b.
Definition oscillators (b : t) : list Oscillator := _oscillators b.
Definition oscillator (index : Z) (b : t) : option Oscillator :=
  js_index (_oscillators b) index.

(** [get gain] *)
Definition gain (b : t) : number := gain_value (_gain b).

Definition connect (b : t) : t :=
  set_gain (GainNode_call connect_call (_gain b)) b.

Definition disconnect (b : t) : t :=
  set_gain (GainNode_call disconnect_call (_gain b)) b.

Definition buildOscillators (partials : list Partial) : list Oscillator :=
  fold_left (fun oscillators partial =>
               oscillators ++ [Oscillator_new
                 {| rate := rate partial;
                    amplitude := amplitude partial;
                    phase := phase partial |}])
            partials [].

Definition setGain (now : number) (value : number)
    (currentTime : option number) (b : t) : t :=
  let currentTime := or_default now currentTime in
  set_gain (GainNode_call (linearRampToValueAtTime value currentTime)
                          (_gain b)) b.

(** The constructor, given the [partials] of its argument; [now] is what
    [audioContext.currentTime] reads during the call (as in every method
    below that takes it: the reading does not move while a method
    runs). *)
Definition new (now : number) (partials : list Partial) : t :=
  let b := {| _gain := createGain; _state := ready; _pitch := 20%float;
              _oscillators := [] |} in
  let b := connect b in
  let b := set_oscillators (buildOscillators partials) b in
  let b := setGain now 1%float None b in
  {| _gain := _gain b; _state := ready; _pitch := _pitch b;
     _oscillators := _oscillators b |}.

Definition play (now : number) (pitch : number) (time : option number)
    (b : t) : t :=
  let time := or_default now time in
  if PlayState_eqb (_state b) used then b
  else
    {| _gain := _gain b;
       _state := playing;
       _pitch := pitch;
       _oscillators :=
         map (Oscillator_play pitch (Some time)) (_oscillators b) |}.

Definition stop (now : number) (time : option number) (b : t) : t :=
  let time := or_default now time in
  set_oscillators (map (Oscillator_stop time) (_oscillators b)) b.

Definition removeOscillator (index : Z) (b : t) : option Oscillator * t :=
  let '(removed, rest) := splice index 1 (_oscillators b) in
  let b := set_oscillators rest b in
  match head removed with
  | None => (None, b)
  | Some removedOscillator => (Some (Oscillator_destroy removedOscillator), b)
  end.

Definition createOscillator (partial : Partial) (b : t) : t :=
  let newOscillator :=
    Oscillator_new {| rate := rate partial; amplitude := amplitude partial;
                      phase := phase partial |} in
  let newOscillator :=
    if PlayState_eqb (_state b) playing
    then Oscillator_play (_pitch b) None newOscillator
    else newOscillator in
  set_oscillators (_oscillators b ++ [newOscillator]) b.

(** For the statements below: the oscillator that
    [createOscillator(partial)] appends to the bank [b], a new one, played
    at the bank's pitch when the bank is playing. *)
Definition created (b : t) (partial : Partial) : Oscillator :=
  if PlayState_eqb (_state b) playing
  then Oscillator_play (_pitch b) None (Oscillator_new partial)
  else Oscillator_new partial.

Definition update (layer : SpectralLayer) (b : t) : t :=
  let partials := partials layer in
  let commonLength := Nat.min (length (_oscillators b)) (length partials) in
  let difference :=
    Z.of_nat (length (_oscillators b)) - Z.of_nat (length partials) in
  let b :=
    for_upto (Z.of_nat commonLength)
      (fun i b =>
         match _oscillators b !! i, partials !! i with
         | Some osc, Some partial =>
             set_oscillators
               (<[i := Oscillator_update partial osc]> (_oscillators b)) b
         | _, _ => b
         end) b in
  let b :=
    if 0 <? difference
    then for_upto difference
           (fun _ b => snd (removeOscillator (Z.of_nat commonLength) b)) b
    else b in
  if difference <? 0
  then for_upto (- difference)
         (fun i b =>
            match partials !! (commonLength + i)%nat with
            | Some partial => createOscillator partial b
            | None => b
            end) b
  else b.

Definition shiftRate (shift : number) (b : t) : t :=
  set_oscillators
    (map (fun osc => Oscillator_setRate (Oscillator_rate osc + shift)%float osc)
         (_oscillators b)) b.

Definition destroy (now : number) (b : t) : t :=
  if PlayState_eqb (_state b) playing
  then disconnect (stop now None b)
  else disconnect b.

(** A call of a public method that can change the bank, and a sequence
    of such calls, first call first. *)
Inductive Call :=
| call_play (now pitch : number) (time : option number)
| call_stop (now : number) (time : option number)
| call_update (layer : SpectralLayer)
| call_createOscillator (partial : Partial)
| call_removeOscillator (index : Z)
| call_setGain (now value : number) (currentTime : option number)
| call_shiftRate (shift : number)
| call_destroy (now : number).

Definition call (c : Call) (b : t) : t :=
  match c with
  | call_play now pitch time => play now pitch time b
  | call_stop now time => stop now time b
  | call_update layer => update layer b
  | call_createOscillator partial => createOscillator partial b
  | call_removeOscillator index => snd (removeOscillator index b)
  | call_setGain now value currentTime => setGain now value currentTime b
  | call_shiftRate shift => shiftRate shift b
  | call_destroy now => destroy now b
  end.

Definition calls (cs : list Call) (b : t) : t :=
  fold_left (fun b c => call c b) cs b.

End OscillatorBank.
Arguments t Oscillator : clear implicits.
End OscillatorBank.

(** ** Voice *)

Module Voice.
Section Voice.

Context {Oscillator : Type} `{OscillatorClass Oscillator}.

Record t := {
  _id : string;
  _pitch : number;
  _state : PlayState;
  _oscillatorBanks : list (OscillatorBank.t Oscillator);
  _adsr : ADSR;
  _gain : GainNode;
}.

Definition set_gain (g : GainNode) (v : t) : t :=
  {| _id := _id v; _pitch := _pitch v; _state := _state v;
     _oscillatorBanks := _oscillatorBanks v; _adsr := _adsr v;
     _gain := g |}.

Definition set_state (s : PlayState) (v : t) : t :=
  {| _id := _id v; _pitch := _pitch v; _state := s;
     _oscillatorBanks := _oscillatorBanks v; _adsr := _adsr v;
     _gain := _gain v |}.

Definition set_pitch (p : number) (v : t) : t :=
  {| _id := _id v; _pitch := p; _state := _state v;
     _oscillatorBanks := _oscillatorBanks v; _adsr := _adsr v;
     _gain := _gain v |}.

Definition set_oscillatorBanks (bs : list (OscillatorBank.t Oscillator))
    (v : t) : t :=
  {| _id := _id v; _pitch := _pitch v; _state := _state v;
     _oscillatorBanks := bs; _adsr := _adsr v; _gain := _gain v |}.

(** The getters. *)
Definition id (v : t) : string := _id v.
Definition pitch (v : t) : number := _pitch v.
Definition state (v : t) : PlayState := _state v.
Definition gainValue (v : t) : number := gain_value (_gain v).
Definition oscillatorBanks (v : t) : list (OscillatorBank.t Oscillator) :=
  _oscillatorBanks v.

Definition connect (v : t) : t :=
  set_gain (GainNode_call connect_call (_gain v)) v.

Definition setGain (now : number) (value : number) (time : option number)
    (v : t) : t :=
  let time := or_default now time in
  set_gain
    (GainNode_call
       (exponentialRampToValueAtTime
          (number_or value 0.0000000001%float) time)
       (_gain v)) v.

(** [createOscillatorBank(layer, oscillators)]: the array [oscillators]
    after the call.  The voice itself is only read. *)
Definition createOscillatorBank (now : number) (layer : SpectralLayer)
    (oscillators : list (OscillatorBank.t Oscillator)) (v : t)
  : list (OscillatorBank.t Oscillator) :=
  let newOscillator := OscillatorBank.new now (partials layer) in
  let newOscillator :=
    if PlayState_eqb (_state v) playing
    then OscillatorBank.play now (_pitch v) None newOscillator
    else newOscillator in
  oscillators ++ [newOscillator].

(** For the statements below: the bank that [createOscillatorBank(layer)]
    appends for the voice [v], a new one, played at the voice's pitch when
    the voice is playing. *)
Definition created (now : number) (v : t) (layer : SpectralLayer)
  : OscillatorBank.t Oscillator :=
  if PlayState_eqb (_state v) playing
  then OscillatorBank.play now (_pitch v) None
         (OscillatorBank.new now (partials layer))
  else OscillatorBank.new now (partials layer).

Definition buildOscillatorBanks (now : number) (spectrum : Spectrum)
    (v : t) : list (OscillatorBank.t Oscillator) :=
  fold_left (fun oscillators layer =>
               createOscillatorBank now layer oscillators v)
            spectrum [].

(** The constructor.  [id] is [None] when it is left out; [random] is
    what [Math.random().toString(16)] gives. *)
Definition new (now : number) (random : string) (id : option string)
    (spectrum : Spectrum) (adsr : ADSR) : t :=
  let v := {| _id := match id with
                     | Some s => if String.eqb s "" then random else s
                     | None => random
                     end;
              _pitch := 20%float;
              _state := ready;
              _oscillatorBanks := [];
              _adsr := adsr;
              _gain := createGain |} in
  let v := connect v in
  set_oscillatorBanks (buildOscillatorBanks now spectrum v) v.

Definition play (now : number) (pitch velocity : number)
    (time : option number) (v : t) : t :=
  let time := or_default now time in
  if PlayState_eqb (_state v) used then v
  else
    let v := set_pitch pitch v in
    let v :=
      if PlayState_eqb (_state v) playing
      then
        let v := set_gain (GainNode_call (cancelScheduledValues time)
                                         (_gain v)) v in
        let v := setGain now (gainValue v) (Some time) v in
        setGain now (velocity * sustain (_adsr v))%float (Some time) v
      else setGain now 0%float None v in
    let v :=
      set_oscillatorBanks
        (map (OscillatorBank.play now (_pitch v) (Some time))
             (_oscillatorBanks v)) v in
    let v := set_state playing v in
    let timeAttackEnds := (time + attack (_adsr v))%float in
    let v := setGain now velocity (Some timeAttackEnds) v in
    let timeDecayEnds := (timeAttackEnds + decay (_adsr v))%float in
    setGain now (velocity * sustain (_adsr v))%float (Some timeDecayEnds) v.

Definition release (now : number) (time : option number) (v : t) : t :=
  let time := or_default now time in
  let v := set_gain (GainNode_call (cancelScheduledValues time)
                                   (_gain v)) v in
  let timeReleaseEnds := (time + release (_adsr v))%float in
  let v := setGain now (gainValue v) (Some time) v in
  setGain now 0%float (Some timeReleaseEnds) v.

(** What [get] returns: [undefined], a bank or an oscillator. *)
Inductive Addressed :=
| undefined
| a_bank (b : OscillatorBank.t Oscillator)
| an_oscillator (o : Oscillator).

Definition Addressed_of_bank (b : option (OscillatorBank.t Oscillator))
  : Addressed :=
  match b with
  | Some b => a_bank b
  | None => undefined
  end.

Definition Addressed_of_oscillator (o : option Oscillator) : Addressed :=
  match o with
  | Some o => an_oscillator o
  | None => undefined
  end.

(** [get(address)], given the two fields of [address]; a field is [None]
    when the address does not have it.  The last match only unpacks the
    two values that the test before it has found present. *)
Definition get (oscIndex partialIndex : option Z) (v : t) : Addressed :=
  if falsy_index oscIndex then undefined
  else
    let oscillatorBank := oscIndex ≫= js_index (_oscillatorBanks v) in
    if falsy_index partialIndex || is_undefined oscillatorBank
    then Addressed_of_bank oscillatorBank
    else
      match partialIndex, oscillatorBank with
      | Some partialIndex, Some oscillatorBank =>
          Addressed_of_oscillator
            (OscillatorBank.oscillator partialIndex oscillatorBank)
      | _, _ => undefined
      end.

Definition removeOscillatorBank (now : number) (index : Z) (v : t)
  : option (OscillatorBank.t Oscillator) * t :=
  let '(removed, rest) := splice index 1 (_oscillatorBanks v) in
  let v := set_oscillatorBanks rest v in
  match head removed with
  | None => (None, v)
  | Some removedOscillatorBank =>
      (Some (OscillatorBank.destroy now removedOscillatorBank), v)
  end.

Definition update (now : number) (spectrum : Spectrum) (v : t) : t :=
  if PlayState_eqb (_state v) used then v
  else
    let commonLength :=
      Nat.min (length (_oscillatorBanks v)) (length spectrum) in
    let difference :=
      Z.of_nat (length (_oscillatorBanks v)) - Z.of_nat (length spectrum) in
    let v :=
      for_upto (Z.of_nat commonLength)
        (fun i v =>
           match _oscillatorBanks v !! i, spectrum !! i with
           | Some bank, Some layer =>
               set_oscillatorBanks
                 (<[i := OscillatorBank.update layer bank]>
                    (_oscillatorBanks v)) v
           | _, _ => v
           end) v in
    let v :=
      if 0 <? difference
      then for_upto difference
             (fun _ v =>
                snd (removeOscillatorBank now (Z.of_nat commonLength) v)) v
      else v in
    if difference <? 0
    then for_upto (- difference)
           (fun i v =>
              match spectrum !! (commonLength + i)%nat with
              | Some bank =>
                  set_oscillatorBanks
                    (createOscillatorBank now bank (_oscillatorBanks v) v) v
              | None => v
              end) v
    else v.

Definition updateAdsr (adsr : ADSR) (v : t) : t :=
  {| _id := _id v; _pitch := _pitch v; _state := _state v;
     _oscillatorBanks := _oscillatorBanks v; _adsr := adsr;
     _gain := _gain v |}.

Definition getOscillators (v : t) : list Oscillator :=
  fold_left (fun partials bank =>
               partials ++ OscillatorBank.oscillators bank)
            (_oscillatorBanks v) [].

Definition destroy (now : number) (v : t) : t :=
  let v := set_state used v in
  let v :=
    set_oscillatorBanks
      (map (OscillatorBank.stop now None) (_oscillatorBanks v)) v in
  set_gain (GainNode_call disconnect_call (_gain v)) v.

(** A call of a public method that can change the voice, and a sequence
    of such calls, first call first. *)
Inductive Call :=
| call_play (now pitch velocity : number) (time : option number)
| call_release (now : number) (time : option number)
| call_update (now : number) (spectrum : Spectrum)
| call_setGain (now value : number) (time : option number)
| call_updateAdsr (adsr : ADSR)
| call_destroy (now : number).

Definition call (c : Call) (v : t) : t :=
  match c with
  | call_play now pitch velocity time => play now pitch velocity time v
  | call_release now time => release now time v
  | call_update now spectrum => update now spectrum v
  | call_setGain now value time => setGain now value time v
  | call_updateAdsr adsr => updateAdsr adsr v
  | call_destroy now => destroy now v
  end.

Definition calls (cs : list Call) (v : t) : t :=
  fold_left (fun v c => call c v) cs v.

End Voice.
Arguments t Oscillator : clear implicits.
Arguments Addressed Oscillator : clear implicits.
End Voice.

(** ** Summaries of call sequences *)

(** What a call of a bank's method adds to the calls on the bank's gain
    node. *)
Definition OscillatorBank_gain_effect (c : OscillatorBank.Call)
  : list GainCall :=
  match c with
  | OscillatorBank.call_setGain now value currentTime =>
      [linearRampToValueAtTime value (or_default now currentTime)]
  | OscillatorBank.call_destroy _ => [disconnect_call]
  | _ => []
  end.

(** The pitch of the last [play] in a sequence of calls on a bank, if
    there is one. *)
Fixpoint OscillatorBank_last_play (cs : list OscillatorBank.Call)
  : option number :=
  match cs with
  | [] => None
  | c :: cs =>
      match OscillatorBank_last_play cs with
      | Some pitch => Some pitch
      | None =>
          match c with
          | OscillatorBank.call_play _ pitch _ => Some pitch
          | _ => None
          end
      end
  end.

(** The three-state machine of a voice: [play] takes [ready] and [playing]
    to [playing], [destroy] takes every state to [used], and no call
    leaves [used]. *)
Definition Voice_state_step (s : PlayState) (c : Voice.Call) : PlayState :=
  match c with
  | Voice.call_destroy _ => used
  | Voice.call_play _ _ _ _ =>
      match s with
      | used => used
      | _ => playing
      end
  | _ => s
  end.

(** A call that a voice's methods may make on the voice's gain node: never
    a linear ramp, and an exponential ramp only to a target that is neither
    zero nor [NaN]. *)
Definition Voice_gain_call_ok (c : GainCall) : bool :=
  match c with
  | linearRampToValueAtTime _ _ => false
  | exponentialRampToValueAtTime value _ => negb (falsy_number value)
  | _ => true
  end.

(** The banks of a voice follow the voice: those of a [ready] voice are
    [ready], and those of a [playing] voice are [playing] at the voice's
    pitch. *)
Definition Voice_synchronised {Oscillator : Type}
    (v : Voice.t Oscillator) : Prop :=
  match Voice._state v with
  | ready =>
      Forall (fun b => OscillatorBank._state b = ready)
             (Voice._oscillatorBanks v)
  | playing =>
      Forall (fun b => OscillatorBank._state b = playing
                       /\ OscillatorBank._pitch b = Voice._pitch v)
             (Voice._oscillatorBanks v)
  | used => True
  end.

(** ** Concrete banks and voices *)

(** Inputs for the examples below, with the recording oscillator. *)
Module Examples.

Definition partial100 : Partial :=
  {| rate := 100%float; amplitude := 1%float; phase := 0%float |}.
Definition partial200 : Partial :=
  {| rate := 200%float; amplitude := 1%float; phase := 0%float |}.
Definition partial300 : Partial :=
  {| rate := 300%float; amplitude := 0.5%float; phase := 0%float |}.

(** A bank of three oscillators, built at time 0. *)
Definition bank3 : OscillatorBank.t Recorder.t :=
  OscillatorBank.new 0%float [partial100; partial200; partial300].

(** The envelope of the spec's scenario, and one that sustains at 0. *)
Definition adsr : ADSR :=
  {| attack := 0.1%float; decay := 0.1%float; sustain := 0.5%float;
     release := 0.2%float |}.
Definition adsr_sustain0 : ADSR :=
  {| attack := 0.1%float; decay := 0.1%float; sustain := 0%float;
     release := 0.2%float |}.

(** The voice of the spec's scenario: one layer of one partial. *)
Definition voice1 : Voice.t Recorder.t :=
  Voice.new 0%float "0.8a3f" None [ {| partials := [partial100] |} ] adsr.
Definition voice1_sustain0 : Voice.t Recorder.t :=
  Voice.new 0%float "0.8a3f" None [ {| partials := [partial100] |} ]
            adsr_sustain0.

(** A voice of three layers. *)
Definition voice3 : Voice.t Recorder.t :=
  Voice.new 0%float "0.8a3f" (Some "lead"%string)
    [ {| partials := [partial100] |};
      {| partials := [partial100; partial200] |};
      {| partials := [partial100; partial200; partial300] |} ] adsr.

End Examples.

(** * Properties *)

(** ** Arrays and loops *)

Section Arrays.

Context {A : Type}.
Implicit Types (arr : list A) (i c k : nat).

(** [splice(start, 1)] inside the array takes out the element there. *)
Lemma splice_inside arr c x :
  arr !! c = Some x ->
  splice (Z.of_nat c) 1 arr = ([x], take c arr ++ drop (Datatypes.S c) arr).
Proof.
  intros Hx. pose proof (lookup_lt_Some _ _ _ Hx) as Hlt.
  unfold splice; cbv zeta.
  assert ((Z.of_nat c <? 0) = false) as -> by lia.
  rewrite (Z.min_l (Z.of_nat c)) by lia. rewrite Nat2Z.id.
  assert (Z.min (Z.max 1 0) (Z.of_nat (length arr) - Z.of_nat c) = 1) as ->
    by lia.
  change (Z.to_nat 1) with 1%nat.
  rewrite (drop_S _ _ _ Hx). simpl take at 1.
  by rewrite Nat.add_1_r.
Qed.

(** [splice(start, 1)] at or past the end takes out nothing. *)
Lemma splice_past arr (start : Z) :
  Z.of_nat (length arr) <= start ->
  splice start 1 arr = ([], arr).
Proof.
  intros Hge. unfold splice; cbv zeta.
  assert ((start <? 0) = false) as -> by lia.
  rewrite (Z.min_r start) by lia. rewrite Nat2Z.id.
  rewrite Z.sub_diag.
  assert (Z.min (Z.max 1 0) 0 = 0) as -> by lia.
  change (Z.to_nat 0) with 0%nat.
  rewrite Nat.add_0_r, take_0, take_ge, drop_ge, app_nil_r by lia.
  reflexivity.
Qed.

(** [splice(start, 1)] with a negative [start] counts from the end, and
    from the first element when that falls before the array. *)
Lemma splice_negative arr (start : Z) :
  start < 0 ->
  splice start 1 arr
  = splice (Z.max (Z.of_nat (length arr) + start) 0) 1 arr.
Proof.
  intros Hneg. unfold splice; cbv zeta.
  assert ((start <? 0) = true) as -> by lia.
  assert ((Z.max (Z.of_nat (length arr) + start) 0 <? 0) = false) as ->
    by lia.
  rewrite (Z.min_l (Z.max (Z.of_nat (length arr) + start) 0)) by lia.
  reflexivity.
Qed.

(** The removal loop of [update]: [k] removals at the fixed index [c]
    take out the elements [c], ..., [c + k - 1]. *)
Lemma remove_loop arr c k :
  (c + k <= length arr)%nat ->
  fold_left (fun arr (_ : nat) => snd (splice (Z.of_nat c) 1 arr))
            (seq 0 k) arr
  = take c arr ++ drop (c + k) arr.
Proof.
  induction k as [|k IH]; intros Hle.
  - simpl. by rewrite Nat.add_0_r, take_drop.
  - rewrite seq_S, fold_left_app, IH by lia. cbn [fold_left].
    destruct (lookup_lt_is_Some_2 arr (c + k)) as [x Hx]; [lia|].
    rewrite (splice_inside _ _ x).
    + simpl. rewrite take_app_le, take_take by (rewrite length_take; lia).
      rewrite Nat.min_id.
      rewrite drop_app_ge by (rewrite length_take; lia).
      rewrite length_take, drop_drop.
      do 2 f_equal. lia.
    + rewrite lookup_app_r by (rewrite length_take; lia).
      rewrite length_take, lookup_drop, <- Hx. f_equal. lia.
Qed.

Context {D : Type}.
Implicit Types (ds : list D).

(** The in-place loop of [update]: after [n] rounds the first [n]
    elements have been updated with the first [n] descriptors. *)
Lemma update_loop (upd : D -> A -> A) ds n arr :
  (n <= length arr)%nat -> (n <= length ds)%nat ->
  fold_left (fun arr i =>
               match arr !! i, ds !! i with
               | Some a, Some d => <[i := upd d a]> arr
               | _, _ => arr
               end) (seq 0 n) arr
  = zip_with (fun a d => upd d a) (take n arr) (take n ds) ++ drop n arr.
Proof.
  induction n as [|n IH]; intros Ha Hd; [done|].
  rewrite seq_S, fold_left_app, IH by lia. simpl.
  destruct (lookup_lt_is_Some_2 arr n) as [a Hna]; [lia|].
  destruct (lookup_lt_is_Some_2 ds n) as [d Hnd]; [lia|].
  assert (length (zip_with (fun a d => upd d a) (take n arr) (take n ds)) = n)
    as Hlen by (rewrite length_zip_with, !length_take; lia).
  rewrite lookup_app_r by lia. rewrite Hlen, Nat.sub_diag.
  rewrite (drop_S _ _ _ Hna). simpl. rewrite Hnd.
  rewrite insert_app_r_alt by lia. rewrite Hlen, Nat.sub_diag. simpl.
  rewrite (take_S_r _ _ _ Hna), (take_S_r _ _ _ Hnd).
  rewrite zip_with_app by (rewrite !length_take; lia).
  simpl. by rewrite <- app_assoc.
Qed.

(** The creation loop of [update]: [k] rounds append the elements made
    from the descriptors [c], ..., [c + k - 1]. *)
Lemma create_loop (mk : D -> A) ds c k arr :
  (c + k <= length ds)%nat ->
  fold_left (fun arr i =>
               match ds !! (c + i)%nat with
               | Some d => arr ++ [mk d]
               | None => arr
               end) (seq 0 k) arr
  = arr ++ map mk (take k (drop c ds)).
Proof.
  induction k as [|k IH]; intros Hle.
  - simpl. by rewrite app_nil_r.
  - rewrite seq_S, fold_left_app, IH by lia. simpl.
    destruct (lookup_lt_is_Some_2 ds (c + k)) as [d Hd]; [lia|].
    rewrite Hd.
    rewrite (take_S_r _ _ d) by (by rewrite lookup_drop).
    by rewrite map_app, <- app_assoc.
Qed.

Lemma zip_with_take_min {B} (f : A -> D -> B) arr ds :
  zip_with f (take (Nat.min (length arr) (length ds)) arr)
             (take (Nat.min (length arr) (length ds)) ds)
  = zip_with f arr ds.
Proof.
  revert ds. induction arr as [|a arr IH]; intros [|d ds]; simpl; try done.
  by rewrite IH.
Qed.

(** The three loops of [update], on the array alone. *)
Lemma update_loops (upd : D -> A -> A) (mk : D -> A) arr ds :
  let commonLength := Nat.min (length arr) (length ds) in
  let difference := Z.of_nat (length arr) - Z.of_nat (length ds) in
  let arr1 :=
    fold_left (fun arr i =>
                 match arr !! i, ds !! i with
                 | Some a, Some d => <[i := upd d a]> arr
                 | _, _ => arr
                 end) (seq 0 commonLength) arr in
  let arr2 :=
    if 0 <? difference
    then fold_left (fun arr (_ : nat) =>
                      snd (splice (Z.of_nat commonLength) 1 arr))
                   (seq 0 (Z.to_nat difference)) arr1
    else arr1 in
  (if difference <? 0
   then fold_left (fun arr i =>
                     match ds !! (commonLength + i)%nat with
                     | Some d => arr ++ [mk d]
                     | None => arr
                     end) (seq 0 (Z.to_nat (- difference))) arr2
   else arr2)
  = reconciled upd mk arr ds.
Proof.
  intros commonLength difference arr1 arr2. unfold reconciled.
  assert (arr1 = zip_with (fun a d => upd d a) arr ds
                   ++ drop commonLength arr) as Harr1.
  { subst arr1. rewrite update_loop by (subst commonLength; lia).
    f_equal. subst commonLength. apply zip_with_take_min. }
  assert (length (zip_with (fun a d => upd d a) arr ds) = commonLength)
    as Hlen by (rewrite length_zip_with; subst commonLength; lia).
  destruct (Z.ltb_spec 0 difference) as [Hpos|Hnpos].
  - (* more elements than descriptors *)
    assert ((difference <? 0) = false) as -> by lia.
    subst arr2. rewrite remove_loop.
    + rewrite Harr1.
      rewrite take_app_length' by lia.
      rewrite drop_ge by
        (rewrite length_app, length_drop; subst commonLength difference; lia).
      rewrite drop_ge by (subst difference; lia).
      reflexivity.
    + rewrite Harr1, length_app, length_drop.
      subst commonLength difference. lia.
  - subst arr2. destruct (Z.ltb_spec difference 0) as [Hneg|Hnneg].
    + (* more descriptors than elements *)
      rewrite create_loop by (subst commonLength difference; lia).
      rewrite Harr1.
      rewrite (drop_ge arr) by (subst commonLength difference; lia).
      rewrite app_nil_r. do 2 f_equal.
      replace commonLength with (length arr)
        by (subst commonLength difference; lia).
      apply take_ge. rewrite length_drop.
      subst difference. lia.
    + (* as many of both *)
      rewrite Harr1.
      rewrite !drop_ge by (subst commonLength difference; lia).
      reflexivity.
Qed.

Lemma length_reconciled (upd : D -> A -> A) (mk : D -> A) arr ds :
  length (reconciled upd mk arr ds) = length ds.
Proof.
  unfold reconciled.
  rewrite length_app, length_zip_with, length_map, length_drop. lia.
Qed.

(** The same array, as the claim words it: a retained prefix of
    [min N M] elements and an appended tail. *)
Lemma reconciled_prefix_tail (upd : D -> A -> A) (mk : D -> A) arr ds :
  let common := Nat.min (length arr) (length ds) in
  reconciled upd mk arr ds
  = zip_with (fun a d => upd d a) (take common arr) (take common ds)
      ++ map mk (drop common ds).
Proof.
  intros common. unfold reconciled. f_equal.
  - subst common. by rewrite zip_with_take_min.
  - f_equal. subst common.
    destruct (Nat.le_ge_cases (length arr) (length ds)).
    + by rewrite Nat.min_l.
    + rewrite Nat.min_r by done. by rewrite !drop_ge by lia.
Qed.

Lemma take_reconciled (upd : D -> A -> A) (mk : D -> A) arr ds :
  let common := Nat.min (length arr) (length ds) in
  take common (reconciled upd mk arr ds)
  = zip_with (fun a d => upd d a) (take common arr) (take common ds).
Proof.
  intros common. rewrite reconciled_prefix_tail. fold common.
  apply take_app_length'.
  rewrite length_zip_with, !length_take. subst common. lia.
Qed.

Lemma drop_reconciled (upd : D -> A -> A) (mk : D -> A) arr ds :
  let common := Nat.min (length arr) (length ds) in
  drop common (reconciled upd mk arr ds) = map mk (drop common ds).
Proof.
  intros common. rewrite reconciled_prefix_tail. fold common.
  apply drop_app_length'.
  rewrite length_zip_with, !length_take. subst common. lia.
Qed.

Lemma reconciled_same_length (upd : D -> A -> A) (mk : D -> A) arr ds :
  length ds = length arr ->
  reconciled upd mk arr ds = zip_with (fun a d => upd d a) arr ds.
Proof.
  intros Hlen. unfold reconciled.
  rewrite drop_ge by lia. apply app_nil_r.
Qed.

End Arrays.

(** A loop on an object that only rewrites one of its fields is a loop on
    that field.  [R] holds what the body reads of the rest of the
    object. *)
Lemma fold_left_field {S L} (get : S -> L) (put : L -> S -> S)
    (R : S -> Prop) (body : nat -> S -> S) (lbody : nat -> L -> L) :
  (forall l s, R s -> R (put l s)) ->
  (forall i s, R s -> body i s = put (lbody i (get s)) s) ->
  (forall l s, get (put l s) = l) ->
  (forall l l' s, put l (put l' s) = put l s) ->
  (forall s, put (get s) s = s) ->
  forall (js : list nat) (s : S), R s ->
    fold_left (fun s i => body i s) js s
    = put (fold_left (fun l i => lbody i l) js (get s)) s.
Proof.
  intros HR Hbody Hgp Hpp Hpg js.
  induction js as [|j js IH]; intros s Hs; simpl.
  - by rewrite Hpg.
  - rewrite (Hbody _ _ Hs), IH by auto.
    by rewrite Hgp, Hpp.
Qed.

Lemma Partial_eta (p : Partial) :
  {| rate := rate p; amplitude := amplitude p; phase := phase p |} = p.
Proof. by destruct p. Qed.

Lemma PlayState_eqb_neq (a b : PlayState) :
  PlayState_eqb a b = false <-> a <> b.
Proof. destruct a, b; simpl; split; congruence. Qed.

Module OscillatorBankFacts.
Section OscillatorBankFacts.

Import OscillatorBank.
Context {Oscillator : Type} `{OscillatorClass Oscillator}.
Implicit Types (b : OscillatorBank.t Oscillator).

Lemma set_oscillators_get b : set_oscillators (_oscillators b) b = b.
Proof. by destruct b. Qed.

Lemma buildOscillators_map (partials : list Partial) :
  buildOscillators partials = map Oscillator_new partials.
Proof.
  unfold buildOscillators.
  assert (forall acc, fold_left
            (fun oscillators partial =>
               oscillators ++ [Oscillator_new
                 {| rate := rate partial; amplitude := amplitude partial;
                    phase := phase partial |}]) partials acc
          = acc ++ map Oscillator_new partials) as Hacc.
  { induction partials as [|p ps IH]; intros acc; simpl.
    - by rewrite app_nil_r.
    - by rewrite IH, Partial_eta, <- app_assoc. }
  apply Hacc.
Qed.

Lemma createOscillator_created (partial : Partial) b :
  createOscillator partial b
  = set_oscillators (_oscillators b ++ [created b partial]) b.
Proof. unfold createOscillator, created. by rewrite Partial_eta. Qed.

Lemma removeOscillator_rest (index : Z) b :
  snd (removeOscillator index b)
  = set_oscillators (snd (splice index 1 (_oscillators b))) b.
Proof.
  unfold removeOscillator.
  destruct (splice index 1 (_oscillators b)) as [removed rest].
  by destruct (head removed).
Qed.

(** [update] rewrites the oscillators, and nothing else of the bank. *)
Lemma bank_update_reconciled (layer : SpectralLayer) b :
  update layer b
  = set_oscillators
      (reconciled Oscillator_update (created b)
                  (_oscillators b) (partials layer)) b.
Proof.
  rewrite <- (update_loops Oscillator_update (created b)).
  unfold update, for_upto. cbv zeta. rewrite Nat2Z.id.
  set (c := Nat.min (length (_oscillators b)) (length (partials layer))).
  set (d := Z.of_nat (length (_oscillators b))
            - Z.of_nat (length (partials layer))).
  (* the in-place loop *)
  assert (forall s : OscillatorBank.t Oscillator,
    fold_left (fun s i =>
                 match _oscillators s !! i, partials layer !! i with
                 | Some osc, Some partial =>
                     set_oscillators
                       (<[i := Oscillator_update partial osc]>
                          (_oscillators s)) s
                 | _, _ => s
                 end) (seq 0 c) s
    = set_oscillators
        (fold_left (fun arr i =>
                      match arr !! i, partials layer !! i with
                      | Some a, Some d => <[i := Oscillator_update d a]> arr
                      | _, _ => arr
                      end) (seq 0 c) (_oscillators s)) s) as Hupdate.
  { intros s.
    apply (fold_left_field _oscillators set_oscillators (fun _ => True)
             (fun i s =>
                match _oscillators s !! i, partials layer !! i with
                | Some osc, Some partial =>
                    set_oscillators
                      (<[i := Oscillator_update partial osc]>
                         (_oscillators s)) s
                | _, _ => s
                end)
             (fun i arr =>
                match arr !! i, partials layer !! i with
                | Some a, Some d => <[i := Oscillator_update d a]> arr
                | _, _ => arr
                end)); try done.
    - intros i s' _.
      destruct (_oscillators s' !! i), (partials layer !! i);
        try done; by destruct s'.
    - intros s'. by destruct s'. }
  (* the removal loop *)
  assert (forall s : OscillatorBank.t Oscillator,
    fold_left (fun s (_ : nat) => snd (removeOscillator (Z.of_nat c) s))
              (seq 0 (Z.to_nat d)) s
    = set_oscillators
        (fold_left (fun arr (_ : nat) => snd (splice (Z.of_nat c) 1 arr))
                   (seq 0 (Z.to_nat d)) (_oscillators s)) s) as Hremove.
  { intros s.
    apply (fold_left_field _oscillators set_oscillators (fun _ => True)
             (fun _ s => snd (removeOscillator (Z.of_nat c) s))
             (fun _ arr => snd (splice (Z.of_nat c) 1 arr))); try done.
    - intros _ s' _. apply removeOscillator_rest.
    - intros s'. by destruct s'. }
  (* the creation loop *)
  assert (forall s : OscillatorBank.t Oscillator,
    _state s = _state b -> _pitch s = _pitch b ->
    fold_left (fun s i =>
                 match partials layer !! (c + i)%nat with
                 | Some partial => createOscillator partial s
                 | None => s
                 end) (seq 0 (Z.to_nat (- d))) s
    = set_oscillators
        (fold_left (fun arr i =>
                      match partials layer !! (c + i)%nat with
                      | Some partial => arr ++ [created b partial]
                      | None => arr
                      end) (seq 0 (Z.to_nat (- d))) (_oscillators s)) s)
    as Hcreate.
  { intros s Hst Hpi.
    apply (fold_left_field _oscillators set_oscillators
             (fun s => _state s = _state b /\ _pitch s = _pitch b)
             (fun i s =>
                match partials layer !! (c + i)%nat with
                | Some partial => createOscillator partial s
                | None => s
                end)
             (fun i arr =>
                match partials layer !! (c + i)%nat with
                | Some partial => arr ++ [created b partial]
                | None => arr
                end)); try done.
    - intros i s' [Hst' Hpi'].
      destruct (partials layer !! (c + i)%nat) as [p|].
      + rewrite createOscillator_created. unfold created.
        by rewrite Hst', Hpi'.
      + by destruct s'.
    - intros s'. by destruct s'. }
  rewrite Hupdate.
  destruct (0 <? d); destruct (d <? 0);
    rewrite ?Hremove, ?Hcreate; try done; by destruct b.
Qed.

Lemma bank_update_oscillators (layer : SpectralLayer) b :
  _oscillators (update layer b)
  = reconciled Oscillator_update (created b)
               (_oscillators b) (partials layer).
Proof. by rewrite bank_update_reconciled. Qed.

Lemma bank_update_state (layer : SpectralLayer) b :
  _state (update layer b) = _state b.
Proof. by rewrite bank_update_reconciled. Qed.

Lemma bank_update_pitch (layer : SpectralLayer) b :
  _pitch (update layer b) = _pitch b.
Proof. by rewrite bank_update_reconciled. Qed.

Lemma bank_update_gain (layer : SpectralLayer) b :
  _gain (update layer b) = _gain b.
Proof. by rewrite bank_update_reconciled. Qed.

End OscillatorBankFacts.
End OscillatorBankFacts.

Module VoiceFacts.
Section VoiceFacts.

Import Voice.
Context {Oscillator : Type} `{OscillatorClass Oscillator}.
Implicit Types (v : Voice.t Oscillator).

Lemma set_oscillatorBanks_get v :
  set_oscillatorBanks (_oscillatorBanks v) v = v.
Proof. by destruct v. Qed.

Lemma createOscillatorBank_created (now : number) (layer : SpectralLayer)
    (oscillators : list (OscillatorBank.t Oscillator)) v :
  createOscillatorBank now layer oscillators v
  = oscillators ++ [created now v layer].
Proof.
  unfold createOscillatorBank, created.
  by destruct (PlayState_eqb (_state v) playing).
Qed.

Lemma removeOscillatorBank_rest (now : number) (index : Z) v :
  snd (removeOscillatorBank now index v)
  = set_oscillatorBanks (snd (splice index 1 (_oscillatorBanks v))) v.
Proof.
  unfold removeOscillatorBank.
  destruct (splice index 1 (_oscillatorBanks v)) as [removed rest].
  by destruct (head removed).
Qed.

Lemma voice_update_used (now : number) (spectrum : Spectrum) v :
  _state v = used -> update now spectrum v = v.
Proof. intros Hused. unfold update. by rewrite Hused. Qed.

(** [update] on a voice that is not retired rewrites the banks, and
    nothing else of the voice. *)
Lemma voice_update_reconciled (now : number) (spectrum : Spectrum) v :
  _state v <> used ->
  update now spectrum v
  = set_oscillatorBanks
      (reconciled OscillatorBank.update (created now v)
                  (_oscillatorBanks v) spectrum) v.
Proof.
  intros Hlive. apply PlayState_eqb_neq in Hlive.
  rewrite <- (update_loops OscillatorBank.update (created now v)).
  unfold update, for_upto. rewrite Hlive. cbv zeta. rewrite Nat2Z.id.
  set (c := Nat.min (length (_oscillatorBanks v)) (length spectrum)).
  set (d := Z.of_nat (length (_oscillatorBanks v))
            - Z.of_nat (length spectrum)).
  (* the in-place loop *)
  assert (forall s : Voice.t Oscillator,
    fold_left (fun s i =>
                 match _oscillatorBanks s !! i, spectrum !! i with
                 | Some bank, Some layer =>
                     set_oscillatorBanks
                       (<[i := OscillatorBank.update layer bank]>
                          (_oscillatorBanks s)) s
                 | _, _ => s
                 end) (seq 0 c) s
    = set_oscillatorBanks
        (fold_left (fun arr i =>
                      match arr !! i, spectrum !! i with
                      | Some a, Some d =>
                          <[i := OscillatorBank.update d a]> arr
                      | _, _ => arr
                      end) (seq 0 c) (_oscillatorBanks s)) s) as Hupdate.
  { intros s.
    apply (fold_left_field _oscillatorBanks set_oscillatorBanks
             (fun _ => True)
             (fun i s =>
                match _oscillatorBanks s !! i, spectrum !! i with
                | Some bank, Some layer =>
                    set_oscillatorBanks
                      (<[i := OscillatorBank.update layer bank]>
                         (_oscillatorBanks s)) s
                | _, _ => s
                end)
             (fun i arr =>
                match arr !! i, spectrum !! i with
                | Some a, Some d => <[i := OscillatorBank.update d a]> arr
                | _, _ => arr
                end)); try done.
    - intros i s' _.
      destruct (_oscillatorBanks s' !! i), (spectrum !! i);
        try done; by destruct s'.
    - intros s'. by destruct s'. }
  (* the removal loop *)
  assert (forall s : Voice.t Oscillator,
    fold_left (fun s (_ : nat) =>
                 snd (removeOscillatorBank now (Z.of_nat c) s))
              (seq 0 (Z.to_nat d)) s
    = set_oscillatorBanks
        (fold_left (fun arr (_ : nat) => snd (splice (Z.of_nat c) 1 arr))
                   (seq 0 (Z.to_nat d)) (_oscillatorBanks s)) s) as Hremove.
  { intros s.
    apply (fold_left_field _oscillatorBanks set_oscillatorBanks
             (fun _ => True)
             (fun _ s => snd (removeOscillatorBank now (Z.of_nat c) s))
             (fun _ arr => snd (splice (Z.of_nat c) 1 arr))); try done.
    - intros _ s' _. apply removeOscillatorBank_rest.
    - intros s'. by destruct s'. }
  (* the creation loop *)
  assert (forall s : Voice.t Oscillator,
    _state s = _state v -> _pitch s = _pitch v ->
    fold_left (fun s i =>
                 match spectrum !! (c + i)%nat with
                 | Some bank =>
                     set_oscillatorBanks
                       (createOscillatorBank now bank
                          (_oscillatorBanks s) s) s
                 | None => s
                 end) (seq 0 (Z.to_nat (- d))) s
    = set_oscillatorBanks
        (fold_left (fun arr i =>
                      match spectrum !! (c + i)%nat with
                      | Some layer => arr ++ [created now v layer]
                      | None => arr
                      end) (seq 0 (Z.to_nat (- d))) (_oscillatorBanks s)) s)
    as Hcreate.
  { intros s Hst Hpi.
    apply (fold_left_field _oscillatorBanks set_oscillatorBanks
             (fun s => _state s = _state v /\ _pitch s = _pitch v)
             (fun i s =>
                match spectrum !! (c + i)%nat with
                | Some bank =>
                    set_oscillatorBanks
                      (createOscillatorBank now bank
                         (_oscillatorBanks s) s) s
                | None => s
                end)
             (fun i arr =>
                match spectrum !! (c + i)%nat with
                | Some layer => arr ++ [created now v layer]
                | None => arr
                end)); try done.
    - intros i s' [Hst' Hpi'].
      destruct (spectrum !! (c + i)%nat) as [layer|].
      + rewrite createOscillatorBank_created. unfold created.
        by rewrite Hst', Hpi'.
      + by destruct s'.
    - intros s'. by destruct s'. }
  rewrite Hupdate.
  destruct (0 <? d); destruct (d <? 0);
    rewrite ?Hremove, ?Hcreate; try done; by destruct v.
Qed.

Lemma voice_update_state (now : number) (spectrum : Spectrum) v :
  _state (update now spectrum v) = _state v.
Proof.
  destruct (decide (_state v = used)) as [Hused|Hlive].
  - by rewrite voice_update_used.
  - by rewrite voice_update_reconciled.
Qed.

End VoiceFacts.
End VoiceFacts.

(** ** The claims *)

Section Claims.

Context {Oscillator : Type} `{OscillatorClass Oscillator}.
Implicit Types (b : OscillatorBank.t Oscillator) (v : Voice.t Oscillator).

(** C1.  [update] with M descriptors, on a bank that owns N oscillators
    and on a voice that owns N banks and is not [used], leaves exactly M
    children: the first [min N M] are the first [min N M] children from
    before, in their order, each updated with the descriptor at its own
    index, and the children after them are the ones created from the
    descriptors [min N M], ..., [M - 1], in order. *)
Theorem C1_update_reconciles_children
    b (layer : SpectralLayer) v (now : number) (spectrum : Spectrum) :
  (let N := length (OscillatorBank._oscillators b) in
   let M := length (partials layer) in
   let after := OscillatorBank._oscillators (OscillatorBank.update layer b) in
   length after = M
   /\ take (Nat.min N M) after
      = zip_with (fun osc partial => Oscillator_update partial osc)
          (take (Nat.min N M) (OscillatorBank._oscillators b))
          (take (Nat.min N M) (partials layer))
   /\ drop (Nat.min N M) after
      = map (OscillatorBank.created b) (drop (Nat.min N M) (partials layer)))
  /\
  (Voice._state v <> used ->
   let N := length (Voice._oscillatorBanks v) in
   let M := length spectrum in
   let after := Voice._oscillatorBanks (Voice.update now spectrum v) in
   length after = M
   /\ take (Nat.min N M) after
      = zip_with (fun bank layer => OscillatorBank.update layer bank)
          (take (Nat.min N M) (Voice._oscillatorBanks v))
          (take (Nat.min N M) spectrum)
   /\ drop (Nat.min N M) after
      = map (Voice.created now v) (drop (Nat.min N M) spectrum)).
Proof.
  split; [|intros Hlive]; cbv zeta.
  - rewrite OscillatorBankFacts.bank_update_oscillators.
    split; [apply length_reconciled|].
    split; [apply take_reconciled | apply drop_reconciled].
  - rewrite (VoiceFacts.voice_update_reconciled _ _ _ Hlive). simpl.
    split; [apply length_reconciled|].
    split; [apply take_reconciled | apply drop_reconciled].
Qed.

(** C6.  [update] with one descriptor for each child, as the entity's own
    descriptor list has, creates and removes no child and still updates
    every child; and after any [update], an [update] with the list [L]
    leaves as many children as [L] has descriptors, as an [update] with
    [L] alone does. *)
Theorem C6_update_same_membership
    b (layer earlier : SpectralLayer)
    v (now now' : number) (spectrum before : Spectrum) :
  (length (partials layer) = length (OscillatorBank._oscillators b) ->
   OscillatorBank._oscillators (OscillatorBank.update layer b)
   = zip_with (fun osc partial => Oscillator_update partial osc)
       (OscillatorBank._oscillators b) (partials layer)
   /\ length (OscillatorBank._oscillators (OscillatorBank.update layer b))
      = length (OscillatorBank._oscillators b))
  /\ length (OscillatorBank._oscillators
               (OscillatorBank.update layer
                  (OscillatorBank.update earlier b)))
     = length (partials layer)
  /\ length (OscillatorBank._oscillators (OscillatorBank.update layer b))
     = length (partials layer)
  /\ (Voice._state v <> used ->
      (length spectrum = length (Voice._oscillatorBanks v) ->
       Voice._oscillatorBanks (Voice.update now spectrum v)
       = zip_with (fun bank layer => OscillatorBank.update layer bank)
           (Voice._oscillatorBanks v) spectrum
       /\ length (Voice._oscillatorBanks (Voice.update now spectrum v))
          = length (Voice._oscillatorBanks v))
      /\ length (Voice._oscillatorBanks
                   (Voice.update now spectrum
                      (Voice.update now' before v)))
         = length spectrum
      /\ length (Voice._oscillatorBanks (Voice.update now spectrum v))
         = length spectrum).
Proof.
  split; [|split; [|split]].
  - intros Hsame. rewrite OscillatorBankFacts.bank_update_oscillators.
    rewrite length_reconciled. split; [|done].
    by apply reconciled_same_length.
  - by rewrite OscillatorBankFacts.bank_update_oscillators, length_reconciled.
  - by rewrite OscillatorBankFacts.bank_update_oscillators, length_reconciled.
  - intros Hlive.
    assert (Voice._state (Voice.update now' before v) <> used) as Hlive'
      by (by rewrite VoiceFacts.voice_update_state).
    split; [|split].
    + intros Hsame. rewrite (VoiceFacts.voice_update_reconciled _ _ _ Hlive).
      simpl. rewrite length_reconciled. split; [|done].
      by apply reconciled_same_length.
    + rewrite (VoiceFacts.voice_update_reconciled _ _ _ Hlive'). simpl.
      by rewrite length_reconciled.
    + rewrite (VoiceFacts.voice_update_reconciled _ _ _ Hlive). simpl.
      by rewrite length_reconciled.
Qed.

(** C7.  [OscillatorBank.stop(time)] sends [stop(time)] to every
    oscillator of the bank and changes nothing else of the bank, so
    [_state] stays what it was; [Voice.release(time)] leaves the voice's
    [_state] what it was, and a playing voice is still [playing]. *)
Theorem C7_stop_and_release_keep_state
    b v (now : number) (time : option number) :
  OscillatorBank._state (OscillatorBank.stop now time b)
    = OscillatorBank._state b
  /\ OscillatorBank._oscillators (OscillatorBank.stop now time b)
     = map (Oscillator_stop (or_default now time))
           (OscillatorBank._oscillators b)
  /\ OscillatorBank._pitch (OscillatorBank.stop now time b)
     = OscillatorBank._pitch b
  /\ OscillatorBank._gain (OscillatorBank.stop now time b)
     = OscillatorBank._gain b
  /\ Voice._state (Voice.release now time v) = Voice._state v
  /\ (Voice._state v = playing ->
      Voice._state (Voice.release now time v) = playing).
Proof. repeat split; done. Qed.

(** *** A retired voice *)

Lemma Voice_play_used v (now pitch velocity : number)
    (time : option number) :
  Voice._state v = used -> Voice.play now pitch velocity time v = v.
Proof. intros Hused. unfold Voice.play. by rewrite Hused. Qed.

Lemma Voice_call_used (c : Voice.Call) v :
  Voice._state v = used -> Voice._state (Voice.call c v) = used.
Proof.
  intros Hused. destruct c; simpl; try done.
  - by rewrite Voice_play_used.
  - by rewrite VoiceFacts.voice_update_used.
Qed.

Lemma Voice_calls_used (cs : list Voice.Call) v :
  Voice._state v = used -> Voice._state (Voice.calls cs v) = used.
Proof.
  revert v. induction cs as [|c cs IH]; intros v Hused; [done|].
  simpl. apply IH. by apply Voice_call_used.
Qed.

(** C2.  After [destroy()], and after whatever calls follow it, the voice
    is [used]; [play] and [update] then give back the voice as it was,
    banks included, and one more [destroy()] gives a [used] voice. *)
Theorem C2_destroy_is_terminal v (now : number) (later : list Voice.Call) :
  let retired := Voice.calls later (Voice.destroy now v) in
  Voice._state (Voice.destroy now v) = used
  /\ Voice._state retired = used
  /\ (forall now' pitch velocity time,
        Voice.play now' pitch velocity time retired = retired)
  /\ (forall now' spectrum, Voice.update now' spectrum retired = retired)
  /\ (forall now', Voice._state (Voice.destroy now' retired) = used).
Proof.
  intros retired.
  assert (Voice._state retired = used) as Hused
    by (by apply Voice_calls_used).
  repeat split; try done.
  - intros. by apply Voice_play_used.
  - intros. by apply VoiceFacts.voice_update_used.
Qed.

(** *** The envelope of [play] *)

Lemma Voice_play_ready v (now pitch velocity : number)
    (time : option number) :
  Voice._state v = ready ->
  Voice.play now pitch velocity time v
  = {| Voice._id := Voice._id v;
       Voice._pitch := pitch;
       Voice._state := playing;
       Voice._oscillatorBanks :=
         map (OscillatorBank.play now pitch (Some (or_default now time)))
             (Voice._oscillatorBanks v);
       Voice._adsr := Voice._adsr v;
       Voice._gain :=
         {| gain_calls :=
              gain_calls (Voice._gain v)
              ++ [exponentialRampToValueAtTime 0.0000000001 now;
                  exponentialRampToValueAtTime
                    (number_or velocity 0.0000000001)
                    (or_default now time + attack (Voice._adsr v));
                  exponentialRampToValueAtTime
                    (number_or (velocity * sustain (Voice._adsr v))
                               0.0000000001)
                    (or_default now time + attack (Voice._adsr v)
                     + decay (Voice._adsr v))]%float;
            gain_value := gain_value (Voice._gain v) |} |}.
Proof.
  intros Hready. unfold Voice.play, Voice.set_pitch. simpl.
  rewrite !Hready. simpl.
  unfold Voice.setGain, Voice.set_gain, GainNode_call. simpl.
  rewrite <- !app_assoc. reflexivity.
Qed.

(** C3, amended.  [play(pitch, velocity, time)] on a [ready] voice records
    the pitch, sends [play(pitch, time)] to every bank, makes the voice
    [playing], and schedules, after the ramp to the floor [1e-10] that
    [setGain(0)] makes at the current time, a ramp to [velocity] that ends
    at [time + attack] and a ramp to [velocity * sustain] that ends at
    [time + attack + decay]; a target that is [0] or [NaN] is replaced by
    the floor [1e-10].  In the scenario of the spec the ramps go to 1 at
    0.1 and to 0.5 at 0.2, and the one bank gets [play(440, 0)]. *)
Theorem C3_play_schedules_envelope
    v (now pitch velocity : number) (time : option number)
    (random : string) (id : option string) :
  (Voice._state v = ready ->
   let t := or_default now time in
   let after := Voice.play now pitch velocity time v in
   let floor := 0.0000000001%float in
   Voice._pitch after = pitch
   /\ Voice._oscillatorBanks after
      = map (OscillatorBank.play now pitch (Some t))
            (Voice._oscillatorBanks v)
   /\ Voice._state after = playing
   /\ gain_calls (Voice._gain after)
      = gain_calls (Voice._gain v)
        ++ [exponentialRampToValueAtTime floor now;
            exponentialRampToValueAtTime
              (number_or velocity floor)
              (t + attack (Voice._adsr v))%float;
            exponentialRampToValueAtTime
              (number_or (velocity * sustain (Voice._adsr v))%float floor)
              (t + attack (Voice._adsr v) + decay (Voice._adsr v))%float]
   /\ (falsy_number velocity = false ->
       falsy_number (velocity * sustain (Voice._adsr v))%float = false ->
       gain_calls (Voice._gain after)
       = gain_calls (Voice._gain v)
         ++ [exponentialRampToValueAtTime floor now;
             exponentialRampToValueAtTime
               velocity (t + attack (Voice._adsr v))%float;
             exponentialRampToValueAtTime
               (velocity * sustain (Voice._adsr v))%float
               (t + attack (Voice._adsr v) + decay (Voice._adsr v))%float]))
  /\
  (let partial :=
     {| rate := 100%float; amplitude := 1%float; phase := 0%float |} in
   let adsr :=
     {| attack := 0.1%float; decay := 0.1%float; sustain := 0.5%float;
        release := 0.2%float |} in
   let built :=
     Voice.new now random id [ {| partials := [partial] |} ] adsr in
   let after := Voice.play now 440%float 1%float (Some 0%float) built in
   Voice._state built = ready
   /\ Voice._state after = playing
   /\ Voice._oscillatorBanks after
      = [OscillatorBank.play now 440%float (Some 0%float)
           (OscillatorBank.new now [partial])]
   /\ gain_calls (Voice._gain after)
      = [connect_call;
         exponentialRampToValueAtTime 0.0000000001%float now;
         exponentialRampToValueAtTime 1%float 0.1%float;
         exponentialRampToValueAtTime 0.5%float 0.2%float]).
Proof.
  split; [intros Hready|]; cbv zeta.
  - rewrite (Voice_play_ready _ _ _ _ _ Hready). simpl.
    repeat split; try done.
    intros Hv Hvs. unfold number_or. by rewrite Hv, Hvs.
  - rewrite Voice_play_ready by done.
    repeat split; reflexivity.
Qed.


(** *** [removeOscillator] *)

Lemma removeOscillator_inside b (index : Z) (osc : Oscillator) :
  0 <= index ->
  OscillatorBank._oscillators b !! Z.to_nat index = Some osc ->
  OscillatorBank.removeOscillator index b
  = (Some (Oscillator_destroy osc),
     OscillatorBank.set_oscillators
       (take (Z.to_nat index) (OscillatorBank._oscillators b)
        ++ drop (S (Z.to_nat index)) (OscillatorBank._oscillators b)) b).
Proof.
  intros Hnonneg Hosc. unfold OscillatorBank.removeOscillator.
  rewrite <- (Z2Nat.id index) at 1 by done.
  by rewrite (splice_inside _ _ _ Hosc).
Qed.

Lemma removeOscillator_past b (index : Z) :
  Z.of_nat (length (OscillatorBank._oscillators b)) <= index ->
  OscillatorBank.removeOscillator index b = (None, b).
Proof.
  intros Hpast. unfold OscillatorBank.removeOscillator.
  rewrite splice_past by done. simpl.
  by rewrite OscillatorBankFacts.set_oscillators_get.
Qed.

Lemma removeOscillator_negative b (index : Z) :
  index < 0 ->
  OscillatorBank.removeOscillator index b
  = OscillatorBank.removeOscillator
      (Z.max (Z.of_nat (length (OscillatorBank._oscillators b)) + index) 0)
      b.
Proof.
  intros Hneg. unfold OscillatorBank.removeOscillator.
  by rewrite splice_negative.
Qed.

(** C5, amended.  With N oscillators in the bank, [removeOscillator(index)]
    for an index of N or more returns [undefined] and leaves the bank as it
    was; for an index in [0, N) it takes the oscillator at that index out
    of the bank, destroys it and returns it. *)
Theorem C5_removeOscillator_by_index b (index : Z) :
  (Z.of_nat (length (OscillatorBank._oscillators b)) <= index ->
   OscillatorBank.removeOscillator index b = (None, b))
  /\ (0 <= index < Z.of_nat (length (OscillatorBank._oscillators b)) ->
      exists osc,
        OscillatorBank._oscillators b !! Z.to_nat index = Some osc
        /\ OscillatorBank.removeOscillator index b
           = (Some (Oscillator_destroy osc),
              OscillatorBank.set_oscillators
                (take (Z.to_nat index) (OscillatorBank._oscillators b)
                 ++ drop (S (Z.to_nat index))
                      (OscillatorBank._oscillators b)) b)).
Proof.
  split.
  - apply removeOscillator_past.
  - intros [Hlo Hhi].
    destruct (lookup_lt_is_Some_2 (OscillatorBank._oscillators b)
                (Z.to_nat index)) as [osc Hosc]; [lia|].
    exists osc. split; [done|]. by apply removeOscillator_inside.
Qed.

(** C9.  With N oscillators in the bank and [1 <= k <= N],
    [removeOscillator(-k)] takes the oscillator at index [N - k] out of
    the bank, destroys it and returns it; for [k > N] and a bank that is
    not empty it does so with the first oscillator; and
    [removeOscillator(-1)] does so with the last one, so it does not
    return [undefined]. *)
Theorem C9_removeOscillator_negative_index b (k : Z) (osc : Oscillator) :
  let N := Z.of_nat (length (OscillatorBank._oscillators b)) in
  (1 <= k <= N ->
   OscillatorBank._oscillators b !! Z.to_nat (N - k) = Some osc ->
   OscillatorBank.removeOscillator (- k) b
   = (Some (Oscillator_destroy osc),
      OscillatorBank.set_oscillators
        (take (Z.to_nat (N - k)) (OscillatorBank._oscillators b)
         ++ drop (S (Z.to_nat (N - k))) (OscillatorBank._oscillators b)) b))
  /\ (N < k ->
      OscillatorBank._oscillators b !! 0%nat = Some osc ->
      OscillatorBank.removeOscillator (- k) b
      = (Some (Oscillator_destroy osc),
         OscillatorBank.set_oscillators
           (drop 1 (OscillatorBank._oscillators b)) b))
  /\ (last (OscillatorBank._oscillators b) = Some osc ->
      OscillatorBank.removeOscillator (-1) b
      = (Some (Oscillator_destroy osc),
         OscillatorBank.set_oscillators
           (take (Z.to_nat (N - 1)) (OscillatorBank._oscillators b)) b)
      /\ fst (OscillatorBank.removeOscillator (-1) b) <> None).
Proof.
  intros N. split; [|split].
  - intros Hk Hosc.
    rewrite removeOscillator_negative by lia. fold N.
    rewrite Z.max_l by lia.
    replace (N + - k) with (N - k) by lia.
    apply removeOscillator_inside; [lia|done].
  - intros Hk Hosc.
    rewrite removeOscillator_negative by lia. fold N.
    rewrite Z.max_r by lia. by rewrite (removeOscillator_inside _ 0 osc).
  - intros Hlast. rewrite last_lookup in Hlast.
    pose proof (lookup_lt_Some _ _ _ Hlast) as Hlt.
    assert (Z.to_nat (N - 1) = pred (length (OscillatorBank._oscillators b)))
      as Hidx by lia.
    assert (OscillatorBank.removeOscillator (-1) b
            = (Some (Oscillator_destroy osc),
               OscillatorBank.set_oscillators
                 (take (Z.to_nat (N - 1)) (OscillatorBank._oscillators b))
                 b)) as Hremoved.
    { rewrite removeOscillator_negative by lia. fold N.
      rewrite Z.max_l by lia.
      replace (N + -1) with (N - 1) by lia.
      rewrite (removeOscillator_inside _ _ osc);
        [|lia|by rewrite Hidx].
      do 2 f_equal. rewrite Hidx.
      rewrite (drop_ge _ (S _)) by lia. apply app_nil_r. }
    split; [done|]. by rewrite Hremoved.
Qed.

(** *** The states of a bank *)

Lemma OscillatorBank_play_live b (now pitch : number)
    (time : option number) :
  OscillatorBank._state b <> used ->
  OscillatorBank.play now pitch time b
  = {| OscillatorBank._gain := OscillatorBank._gain b;
       OscillatorBank._state := playing;
       OscillatorBank._pitch := pitch;
       OscillatorBank._oscillators :=
         map (Oscillator_play pitch (Some (or_default now time)))
             (OscillatorBank._oscillators b) |}.
Proof.
  intros Hlive. apply PlayState_eqb_neq in Hlive.
  unfold OscillatorBank.play. by rewrite Hlive.
Qed.

Lemma OscillatorBank_destroy_state b (now : number) :
  OscillatorBank._state (OscillatorBank.destroy now b)
  = OscillatorBank._state b.
Proof.
  unfold OscillatorBank.destroy.
  by destruct (PlayState_eqb (OscillatorBank._state b) playing).
Qed.

(** No method takes a bank to [used]. *)
Lemma OscillatorBank_call_live (c : OscillatorBank.Call) b :
  OscillatorBank._state b <> used ->
  OscillatorBank._state (OscillatorBank.call c b) <> used.
Proof.
  intros Hlive. destruct c; simpl; try done.
  - by rewrite OscillatorBank_play_live.
  - by rewrite OscillatorBankFacts.bank_update_state.
  - by rewrite OscillatorBankFacts.removeOscillator_rest.
  - by rewrite OscillatorBank_destroy_state.
Qed.

Lemma OscillatorBank_calls_live (cs : list OscillatorBank.Call) b :
  OscillatorBank._state b <> used ->
  OscillatorBank._state (OscillatorBank.calls cs b) <> used.
Proof.
  revert b. induction cs as [|c cs IH]; intros b Hlive; [done|].
  simpl. apply IH. by apply OscillatorBank_call_live.
Qed.

(** C8.  After the constructor and any sequence of calls of [play],
    [stop], [update], [createOscillator], [removeOscillator], [setGain],
    [shiftRate] and [destroy], the bank is [ready] or [playing], never
    [used]; so [play] never returns at its guard: it plays every
    oscillator and leaves the bank [playing]. *)
Theorem C8_bank_is_never_used
    (now : number) (partials : list Partial)
    (cs : list OscillatorBank.Call) :
  let b := OscillatorBank.calls cs (OscillatorBank.new now partials) in
  (OscillatorBank._state b = ready \/ OscillatorBank._state b = playing)
  /\ OscillatorBank._state b <> used
  /\ (forall now' pitch time,
        OscillatorBank.play now' pitch time b
        = {| OscillatorBank._gain := OscillatorBank._gain b;
             OscillatorBank._state := playing;
             OscillatorBank._pitch := pitch;
             OscillatorBank._oscillators :=
               map (Oscillator_play pitch (Some (or_default now' time)))
                   (OscillatorBank._oscillators b) |}).
Proof.
  intros b.
  assert (OscillatorBank._state b <> used) as Hlive
    by (by apply OscillatorBank_calls_live).
  split; [|split; [done|]].
  - destruct (OscillatorBank._state b); auto. done.
  - intros. by apply OscillatorBank_play_live.
Qed.

(** C10.  [OscillatorBank.destroy()] leaves [_state] and [_pitch] as they
    were and keeps every oscillator in the bank, in place (each one
    stopped when the bank is playing), and disconnects the gain stage; a
    [play] after it plays every oscillator and leaves the bank [playing],
    and an [update] after it reconciles the oscillators as on any bank;
    [Voice.destroy()], unlike it, makes the voice [used]. *)
Theorem C10_bank_destroy_does_not_retire
    b v (now now' pitch : number) (time : option number)
    (layer : SpectralLayer) :
  let destroyed := OscillatorBank.destroy now b in
  OscillatorBank._state destroyed = OscillatorBank._state b
  /\ OscillatorBank._pitch destroyed = OscillatorBank._pitch b
  /\ OscillatorBank._oscillators destroyed
     = (if PlayState_eqb (OscillatorBank._state b) playing
        then map (Oscillator_stop now) (OscillatorBank._oscillators b)
        else OscillatorBank._oscillators b)
  /\ length (OscillatorBank._oscillators destroyed)
     = length (OscillatorBank._oscillators b)
  /\ gain_calls (OscillatorBank._gain destroyed)
     = gain_calls (OscillatorBank._gain b) ++ [disconnect_call]
  /\ (OscillatorBank._state b <> used ->
      OscillatorBank._state (OscillatorBank.play now' pitch time destroyed)
        = playing
      /\ OscillatorBank._pitch
           (OscillatorBank.play now' pitch time destroyed) = pitch
      /\ OscillatorBank._oscillators
           (OscillatorBank.play now' pitch time destroyed)
         = map (Oscillator_play pitch (Some (or_default now' time)))
               (OscillatorBank._oscillators destroyed))
  /\ OscillatorBank._oscillators (OscillatorBank.update layer destroyed)
     = reconciled Oscillator_update (OscillatorBank.created destroyed)
         (OscillatorBank._oscillators destroyed) (partials layer)
  /\ Voice._state (Voice.destroy now v) = used.
Proof.
  intros destroyed.
  assert (OscillatorBank._state destroyed = OscillatorBank._state b)
    as Hstate by apply OscillatorBank_destroy_state.
  split; [done|].
  split; [|split; [|split; [|split; [|split; [|split]]]]].
  - subst destroyed. unfold OscillatorBank.destroy.
    by destruct (PlayState_eqb (OscillatorBank._state b) playing).
  - subst destroyed. unfold OscillatorBank.destroy.
    by destruct (PlayState_eqb (OscillatorBank._state b) playing).
  - subst destroyed. unfold OscillatorBank.destroy.
    destruct (PlayState_eqb (OscillatorBank._state b) playing); simpl;
      by rewrite ?length_map.
  - subst destroyed. unfold OscillatorBank.destroy.
    by destruct (PlayState_eqb (OscillatorBank._state b) playing).
  - intros Hlive.
    rewrite OscillatorBank_play_live by (by rewrite Hstate). done.
  - apply OscillatorBankFacts.bank_update_oscillators.
  - done.
Qed.

End Claims.

(** ** The claims on concrete banks and voices *)

Import Examples.

(** The spec's scenario for [update]: a voice of one bank, updated with two
    layers, has two banks; a bank of three oscillators, updated with four
    partials, has four oscillators. *)
Lemma C1_update_reconciles_children_witness :
  Voice._state voice1 <> used
  /\ length (Voice._oscillatorBanks
               (Voice.update 0%float
                  [ {| partials := [] |}; {| partials := [partial200] |} ]
                  voice1)) = 2%nat
  /\ length (OscillatorBank._oscillators
               (OscillatorBank.update
                  {| partials :=
                       [partial100; partial200; partial300; partial100] |}
                  bank3)) = 4%nat.
Proof.
  assert (Voice._state voice1 <> used) as Hlive by (vm_compute; discriminate).
  split; [exact Hlive|].
  destruct (C1_update_reconciles_children
              bank3
              {| partials :=
                   [partial100; partial200; partial300; partial100] |}
              voice1 0%float
              [ {| partials := [] |}; {| partials := [partial200] |} ])
    as [[Hbank _] Hvoice].
  destruct (Hvoice Hlive) as [Hbanks _].
  split; [exact Hbanks | exact Hbank].
Defined.

(** The spec's scenario for [play], on the recording oscillator. *)
Lemma C3_play_schedules_envelope_witness :
  Voice._state voice1 = ready
  /\ Voice._state (Voice.play 0%float 440%float 1%float (Some 0%float) voice1)
     = playing
  /\ gain_calls
       (Voice._gain
          (Voice.play 0%float 440%float 1%float (Some 0%float) voice1))
     = [connect_call;
        exponentialRampToValueAtTime 0.0000000001%float 0%float;
        exponentialRampToValueAtTime 1%float 0.1%float;
        exponentialRampToValueAtTime 0.5%float 0.2%float].
Proof.
  assert (Voice._state voice1 = ready) as Hready by reflexivity.
  split; [exact Hready|].
  destruct (C3_play_schedules_envelope
              voice1 0%float 440%float 1%float (Some 0%float)
              "0.8a3f" None) as [Hplay _].
  destruct (Hplay Hready) as (_ & _ & Hstate & Hcalls & _).
  split; [exact Hstate | exact Hcalls].
Defined.

(** C3 as it is stated fails on an envelope that sustains at 0: the second
    ramp of [play(440, 1, 0)] goes to the floor [1e-10] and not to
    [velocity * sustain], which is 0. *)
Lemma C3_play_schedules_envelope_counterexample :
  Voice._state voice1_sustain0 = ready
  /\ gain_calls
       (Voice._gain
          (Voice.play 0%float 440%float 1%float (Some 0%float)
             voice1_sustain0))
     = [connect_call;
        exponentialRampToValueAtTime 0.0000000001%float 0%float;
        exponentialRampToValueAtTime 1%float 0.1%float;
        exponentialRampToValueAtTime 0.0000000001%float 0.2%float]
  /\ ~ (exists before,
          gain_calls
            (Voice._gain
               (Voice.play 0%float 440%float 1%float (Some 0%float)
                  voice1_sustain0))
          = before
            ++ [exponentialRampToValueAtTime
                  1%float (0 + attack adsr_sustain0)%float;
                exponentialRampToValueAtTime
                  (1 * sustain adsr_sustain0)%float
                  (0 + attack adsr_sustain0 + decay adsr_sustain0)%float]).
Proof.
  split; [reflexivity|]. split; [reflexivity|].
  intros [before Hcalls].
  change (gain_calls
            (Voice._gain
               (Voice.play 0%float 440%float 1%float (Some 0%float)
                  voice1_sustain0)))
    with ([connect_call;
           exponentialRampToValueAtTime 0.0000000001%float 0%float;
           exponentialRampToValueAtTime 1%float 0.1%float]
          ++ [exponentialRampToValueAtTime 0.0000000001%float 0.2%float])
    in Hcalls.
  change (before ++ [?x; ?y]) with (before ++ [x] ++ [y]) in Hcalls.
  rewrite app_assoc in Hcalls.
  apply app_inj_tail in Hcalls as [_ Hlast].
  apply (f_equal (fun c => match c with
                            | exponentialRampToValueAtTime value _ =>
                                PrimFloat.is_zero value
                            | _ => false
                            end)) in Hlast.
  vm_compute in Hlast. discriminate.
Qed.


(** The spec's scenario for [removeOscillator]: index 5 on a bank of three
    oscillators; and index 1 on the same bank. *)
Lemma C5_removeOscillator_by_index_witness :
  Z.of_nat (length (OscillatorBank._oscillators bank3)) <= 5
  /\ OscillatorBank.removeOscillator 5 bank3 = (None, bank3)
  /\ 0 <= 1 < Z.of_nat (length (OscillatorBank._oscillators bank3))
  /\ fst (OscillatorBank.removeOscillator 1 bank3)
     = Some (Oscillator_destroy (Oscillator_new partial200)).
Proof.
  assert (Z.of_nat (length (OscillatorBank._oscillators bank3)) <= 5)
    as Hpast by (simpl; lia).
  assert (0 <= 1 < Z.of_nat (length (OscillatorBank._oscillators bank3)))
    as Hinside by (simpl; lia).
  destruct (C5_removeOscillator_by_index bank3 5) as [Hfive _].
  destruct (C5_removeOscillator_by_index bank3 1) as [_ Hone].
  split; [exact Hpast|]. split; [exact (Hfive Hpast)|].
  split; [exact Hinside|].
  destruct (Hone Hinside) as (osc & Hosc & Hremoved).
  rewrite Hremoved. simpl. f_equal.
  injection Hosc as <-. reflexivity.
Defined.

(** C5 as it is stated fails on the index -1, which is outside [0, 3):
    [removeOscillator(-1)] on a bank of three oscillators takes out the
    last one, destroys it and returns it. *)
Lemma C5_removeOscillator_by_index_counterexample :
  ~ (0 <= -1 < Z.of_nat (length (OscillatorBank._oscillators bank3)))
  /\ OscillatorBank.removeOscillator (-1) bank3
     = (Some (Oscillator_destroy (Oscillator_new partial300)),
        OscillatorBank.set_oscillators
          [Oscillator_new partial100; Oscillator_new partial200] bank3)
  /\ OscillatorBank.removeOscillator (-1) bank3 <> (None, bank3).
Proof.
  split; [lia|]. split; [reflexivity|].
  intros Hnone. vm_compute in Hnone. discriminate.
Qed.

(** [update] with three partials on a bank of three oscillators, and with
    one layer on a voice of one bank. *)
Lemma C6_update_same_membership_witness :
  Voice._state voice1 <> used
  /\ length (OscillatorBank._oscillators
               (OscillatorBank.update
                  {| partials := [partial300; partial200; partial100] |}
                  bank3)) = 3%nat
  /\ OscillatorBank._oscillators
       (OscillatorBank.update
          {| partials := [partial300; partial200; partial100] |} bank3)
     = [Oscillator_update partial300 (Oscillator_new partial100);
        Oscillator_update partial200 (Oscillator_new partial200);
        Oscillator_update partial100 (Oscillator_new partial300)]
  /\ length (Voice._oscillatorBanks
               (Voice.update 0%float [ {| partials := [partial200] |} ]
                  voice1)) = 1%nat.
Proof.
  assert (Voice._state voice1 <> used) as Hlive by (vm_compute; discriminate).
  split; [exact Hlive|].
  destruct (C6_update_same_membership
              bank3 {| partials := [partial300; partial200; partial100] |}
              {| partials := [] |}
              voice1 0%float 0%float [ {| partials := [partial200] |} ] [])
    as (Hbank & _ & _ & Hvoice).
  destruct (Hbank eq_refl) as [Hupdated Hcount].
  destruct (Hvoice Hlive) as (Hsame & _ & _).
  destruct (Hsame eq_refl) as [_ Hbanks].
  split; [exact Hcount|]. split; [exact Hupdated | exact Hbanks].
Defined.

(** A playing voice is still [playing] after [release]. *)
Lemma C7_stop_and_release_keep_state_witness :
  Voice._state (Voice.play 0%float 440%float 1%float None voice1) = playing
  /\ Voice._state
       (Voice.release 1%float None
          (Voice.play 0%float 440%float 1%float None voice1)) = playing.
Proof.
  assert (Voice._state (Voice.play 0%float 440%float 1%float None voice1)
          = playing) as Hplaying by reflexivity.
  split; [exact Hplaying|].
  destruct (C7_stop_and_release_keep_state
              bank3 (Voice.play 0%float 440%float 1%float None voice1)
              1%float None) as (_ & _ & _ & _ & _ & Hrelease).
  exact (Hrelease Hplaying).
Defined.

(** [removeOscillator(-1)], [removeOscillator(-3)] and
    [removeOscillator(-7)] on a bank of three oscillators. *)
Lemma C9_removeOscillator_negative_index_witness :
  last (OscillatorBank._oscillators bank3) = Some (Oscillator_new partial300)
  /\ OscillatorBank.removeOscillator (-1) bank3
     = (Some (Oscillator_destroy (Oscillator_new partial300)),
        OscillatorBank.set_oscillators
          [Oscillator_new partial100; Oscillator_new partial200] bank3)
  /\ OscillatorBank.removeOscillator (-3) bank3
     = (Some (Oscillator_destroy (Oscillator_new partial100)),
        OscillatorBank.set_oscillators
          [Oscillator_new partial200; Oscillator_new partial300] bank3)
  /\ OscillatorBank.removeOscillator (-7) bank3
     = (Some (Oscillator_destroy (Oscillator_new partial100)),
        OscillatorBank.set_oscillators
          [Oscillator_new partial200; Oscillator_new partial300] bank3).
Proof.
  assert (last (OscillatorBank._oscillators bank3)
          = Some (Oscillator_new partial300)) as Hlast by reflexivity.
  split; [exact Hlast|].
  destruct (C9_removeOscillator_negative_index
              bank3 1 (Oscillator_new partial300)) as (_ & _ & Hminus1).
  destruct (C9_removeOscillator_negative_index
              bank3 3 (Oscillator_new partial100)) as (Hminus3 & _ & _).
  destruct (C9_removeOscillator_negative_index
              bank3 7 (Oscillator_new partial100)) as (_ & Hminus7 & _).
  split; [exact (proj1 (Hminus1 Hlast))|].
  split.
  - apply Hminus3; [simpl; lia | reflexivity].
  - apply Hminus7; [simpl; lia | reflexivity].
Defined.

(** A bank that is destroyed and then played is [playing], with every
    oscillator played. *)
Lemma C10_bank_destroy_does_not_retire_witness :
  OscillatorBank._state bank3 <> used
  /\ OscillatorBank._state (OscillatorBank.destroy 1%float bank3) = ready
  /\ OscillatorBank._state
       (OscillatorBank.play 2%float 440%float None
          (OscillatorBank.destroy 1%float bank3)) = playing
  /\ OscillatorBank._oscillators
       (OscillatorBank.play 2%float 440%float None
          (OscillatorBank.destroy 1%float bank3))
     = [Oscillator_play 440%float (Some 2%float) (Oscillator_new partial100);
        Oscillator_play 440%float (Some 2%float) (Oscillator_new partial200);
        Oscillator_play 440%float (Some 2%float) (Oscillator_new partial300)].
Proof.
  assert (OscillatorBank._state bank3 <> used) as Hlive
    by (vm_compute; discriminate).
  split; [exact Hlive|].
  destruct (C10_bank_destroy_does_not_retire
              bank3 voice1 1%float 2%float 440%float None
              {| partials := [] |})
    as (Hstate & _ & _ & _ & _ & Hplay & _).
  split; [exact Hstate|].
  destruct (Hplay Hlive) as (Hplaying & _ & Hplayed).
  split; [exact Hplaying | exact Hplayed].
Defined.

(** ** Further properties *)

Section Further.

Context {Oscillator : Type} `{OscillatorClass Oscillator}.
Implicit Types (b : OscillatorBank.t Oscillator) (v : Voice.t Oscillator).

(** *** Construction *)

Lemma OscillatorBank_new_eq (now : number) (partials : list Partial) :
  OscillatorBank.new now partials
  = {| OscillatorBank._gain :=
         {| gain_calls := [connect_call; linearRampToValueAtTime 1 now];
            gain_value := 1 |};
       OscillatorBank._state := ready;
       OscillatorBank._pitch := 20;
       OscillatorBank._oscillators := map Oscillator_new partials |}%float.
Proof.
  unfold OscillatorBank.new. simpl.
  by rewrite OscillatorBankFacts.buildOscillators_map.
Qed.

(** X1.  The constructor of a bank makes one oscillator for each partial, in
    the order of the partials, none of them played; the bank is [ready] at
    pitch 20, and its gain node has been connected and then ramped linearly
    to 1 at the current time. *)
Theorem X1_bank_constructor (now : number) (partials : list Partial) :
  OscillatorBank.new now partials
  = {| OscillatorBank._gain :=
         {| gain_calls := [connect_call; linearRampToValueAtTime 1 now];
            gain_value := 1 |};
       OscillatorBank._state := ready;
       OscillatorBank._pitch := 20;
       OscillatorBank._oscillators := map Oscillator_new partials |}%float.
Proof. apply OscillatorBank_new_eq. Qed.

Lemma buildOscillatorBanks_map (now : number) (spectrum : Spectrum) v :
  Voice.buildOscillatorBanks now spectrum v
  = map (Voice.created now v) spectrum.
Proof.
  unfold Voice.buildOscillatorBanks.
  assert (forall acc,
            fold_left (fun oscillators layer =>
                         Voice.createOscillatorBank now layer oscillators v)
                      spectrum acc
            = acc ++ map (Voice.created now v) spectrum) as Hacc.
  { induction spectrum as [|layer spectrum IH]; intros acc; simpl.
    - by rewrite app_nil_r.
    - by rewrite IH, VoiceFacts.createOscillatorBank_created, <- app_assoc. }
  apply Hacc.
Qed.

Lemma Voice_new_banks
    (now : number) (random : string) (id : option string)
    (spectrum : Spectrum) (adsr : ADSR) :
  Voice._oscillatorBanks (Voice.new now random id spectrum adsr)
  = map (fun layer => OscillatorBank.new now (partials layer)) spectrum.
Proof. unfold Voice.new. simpl. by rewrite buildOscillatorBanks_map. Qed.

(** X2.  The constructor of a voice makes one bank for each layer of the
    spectrum, in the order of the layers, each as the bank constructor
    makes it from the layer's partials and none of them played; the voice
    is [ready] at pitch 20 and its gain node has only been connected.  The
    id is the one given when that is a non-empty string, and the random one
    when the id is left out or empty. *)
Theorem X2_voice_constructor
    (now : number) (random : string) (id : option string)
    (spectrum : Spectrum) (adsr : ADSR) :
  let v := Voice.new now random id spectrum adsr in
  Voice._oscillatorBanks v
  = map (fun layer => OscillatorBank.new now (partials layer)) spectrum
  /\ Voice._state v = ready
  /\ Voice._pitch v = 20%float
  /\ Voice._adsr v = adsr
  /\ Voice._gain v = {| gain_calls := [connect_call]; gain_value := 1 |}
  /\ Voice._id v
     = match id with
       | Some (String c s) => String c s
       | Some EmptyString | None => random
       end.
Proof.
  cbv zeta. split; [apply Voice_new_banks|].
  unfold Voice.new. simpl. repeat split.
  by destruct id as [[|c s]|].
Qed.

Lemma getOscillators_concat v :
  Voice.getOscillators v
  = concat (map OscillatorBank._oscillators (Voice._oscillatorBanks v)).
Proof.
  unfold Voice.getOscillators, OscillatorBank.oscillators.
  assert (forall (banks : list (OscillatorBank.t Oscillator)) acc,
            fold_left (fun partials bank =>
                         partials ++ OscillatorBank._oscillators bank)
                      banks acc
            = acc ++ concat (map OscillatorBank._oscillators banks)) as Hacc.
  { induction banks as [|bank banks IH]; intros acc; simpl.
    - by rewrite app_nil_r.
    - by rewrite IH, <- app_assoc. }
  apply Hacc.
Qed.

(** X3.  [getOscillators] gives the oscillators of the first bank, then
    those of the second, and so on, each bank's in their order; none for a
    voice without banks; and for a voice fresh from its constructor, one
    new oscillator for each partial of each layer, in order. *)
Theorem X3_getOscillators_bank_major
    v (now : number) (random : string) (id : option string)
    (spectrum : Spectrum) (adsr : ADSR) :
  Voice.getOscillators v
  = concat (map OscillatorBank._oscillators (Voice._oscillatorBanks v))
  /\ (Voice._oscillatorBanks v = [] -> Voice.getOscillators v = [])
  /\ Voice.getOscillators (Voice.new now random id spectrum adsr)
     = map Oscillator_new (concat (map partials spectrum)).
Proof.
  split; [apply getOscillators_concat|]. split.
  - intros Hnone. by rewrite getOscillators_concat, Hnone.
  - rewrite getOscillators_concat.
    rewrite Voice_new_banks, concat_map, !map_map. f_equal.
    apply map_ext. intros layer. by rewrite OscillatorBank_new_eq.
Qed.

(** *** What [update] leaves alone *)

(** X4.  [update] changes nothing of a bank but its array of oscillators:
    the state, the pitch and the gain node (no call is added) stay as they
    were.  [update] changes nothing of a voice but its array of banks,
    whatever the state of the voice: id, pitch, state, envelope and gain
    node stay as they were. *)
Theorem X4_update_frame
    b (layer : SpectralLayer) v (now : number) (spectrum : Spectrum) :
  (OscillatorBank._state (OscillatorBank.update layer b)
     = OscillatorBank._state b
   /\ OscillatorBank._pitch (OscillatorBank.update layer b)
      = OscillatorBank._pitch b
   /\ OscillatorBank._gain (OscillatorBank.update layer b)
      = OscillatorBank._gain b)
  /\ (Voice._id (Voice.update now spectrum v) = Voice._id v
      /\ Voice._pitch (Voice.update now spectrum v) = Voice._pitch v
      /\ Voice._state (Voice.update now spectrum v) = Voice._state v
      /\ Voice._adsr (Voice.update now spectrum v) = Voice._adsr v
      /\ Voice._gain (Voice.update now spectrum v) = Voice._gain v).
Proof.
  split.
  - by rewrite OscillatorBankFacts.bank_update_reconciled.
  - destruct (decide (Voice._state v = used)) as [Hused|Hlive].
    + by rewrite VoiceFacts.voice_update_used.
    + by rewrite VoiceFacts.voice_update_reconciled.
Qed.

(** *** Oscillators that come and go *)

(** X5.  [createOscillator] puts the new oscillator after the ones the bank
    has and leaves those as they are.  On a bank that has been played (and
    is not [used]) the new oscillator is played at the pitch of that
    [play], with no time given; on a bank fresh from its constructor it is
    not played. *)
Theorem X5_createOscillator_appends
    b (partial : Partial) (now pitch : number) (time : option number)
    (partials : list Partial) :
  OscillatorBank._oscillators (OscillatorBank.createOscillator partial b)
  = OscillatorBank._oscillators b ++ [OscillatorBank.created b partial]
  /\ (OscillatorBank._state b <> used ->
      OscillatorBank._oscillators
        (OscillatorBank.createOscillator partial
           (OscillatorBank.play now pitch time b))
      = map (Oscillator_play pitch (Some (or_default now time)))
            (OscillatorBank._oscillators b)
        ++ [Oscillator_play pitch None (Oscillator_new partial)])
  /\ OscillatorBank._oscillators
       (OscillatorBank.createOscillator partial
          (OscillatorBank.new now partials))
     = map Oscillator_new (partials ++ [partial]).
Proof.
  split; [|split].
  - by rewrite OscillatorBankFacts.createOscillator_created.
  - intros Hlive.
    rewrite OscillatorBankFacts.createOscillator_created.
    by rewrite OscillatorBank_play_live.
  - rewrite OscillatorBankFacts.createOscillator_created.
    rewrite OscillatorBank_new_eq. simpl. by rewrite map_app.
Qed.

(** X6.  Taking out, with [removeOscillator], the oscillator that
    [createOscillator] has just put in (it is at the index that was the
    length of the array) returns that oscillator, destroyed, and leaves the
    bank as it was before the two calls. *)
Theorem X6_create_then_remove b (partial : Partial) :
  OscillatorBank.removeOscillator
    (Z.of_nat (length (OscillatorBank._oscillators b)))
    (OscillatorBank.createOscillator partial b)
  = (Some (Oscillator_destroy (OscillatorBank.created b partial)), b).
Proof.
  rewrite OscillatorBankFacts.createOscillator_created.
  rewrite (removeOscillator_inside _ _ (OscillatorBank.created b partial)).
  - rewrite Nat2Z.id. simpl.
    rewrite take_app_length.
    rewrite drop_ge by (rewrite length_app; simpl; lia).
    rewrite app_nil_r. by destruct b.
  - lia.
  - rewrite Nat2Z.id. simpl.
    by rewrite lookup_app_r, Nat.sub_diag.
Qed.

(** X7.  [removeOscillator(index)] returns [undefined] exactly when the
    bank has no oscillator or the index is the length of the array or more;
    the bank is then left as it was.  In every other case, a negative index
    included, the bank has one oscillator less afterwards. *)
Theorem X7_removeOscillator_undefined b (index : Z) :
  let N := length (OscillatorBank._oscillators b) in
  let result := OscillatorBank.removeOscillator index b in
  (fst result = None <-> N = 0%nat \/ Z.of_nat N <= index)
  /\ (fst result = None -> snd result = b)
  /\ (fst result <> None ->
      length (OscillatorBank._oscillators (snd result)) = (N - 1)%nat).
Proof.
  intros N result.
  assert (forall i, 0 <= i < Z.of_nat N ->
            exists osc,
              OscillatorBank.removeOscillator i b
              = (Some (Oscillator_destroy osc),
                 OscillatorBank.set_oscillators
                   (take (Z.to_nat i) (OscillatorBank._oscillators b)
                    ++ drop (S (Z.to_nat i))
                         (OscillatorBank._oscillators b)) b)) as Hinside.
  { intros i Hi.
    destruct (lookup_lt_is_Some_2 (OscillatorBank._oscillators b)
                (Z.to_nat i)) as [osc Hosc]; [fold N; lia|].
    exists osc. apply removeOscillator_inside; [lia|done]. }
  assert (forall i, 0 <= i < Z.of_nat N ->
            length (take (Z.to_nat i) (OscillatorBank._oscillators b)
                    ++ drop (S (Z.to_nat i)) (OscillatorBank._oscillators b))
            = (N - 1)%nat) as Hlength.
  { intros i Hi. rewrite length_app, length_take, length_drop.
    subst N. lia. }
  destruct (Z_lt_le_dec index 0) as [Hneg|Hnonneg].
  - (* a negative index *)
    subst result. rewrite removeOscillator_negative by done. fold N.
    destruct (Nat.eq_dec N 0%nat) as [Hempty|Hsome].
    + rewrite removeOscillator_past by (fold N; lia). simpl.
      split; [|done]. split; [by left | done].
    + destruct (Hinside (Z.max (Z.of_nat N + index) 0)) as [osc ->]; [lia|].
      simpl. split; [|split].
      * split; [done | lia].
      * done.
      * intros _. apply Hlength. lia.
  - destruct (Z_lt_le_dec index (Z.of_nat N)) as [Hin|Hpast].
    + subst result. destruct (Hinside index) as [osc ->]; [lia|].
      simpl. split; [|split].
      * split; [done | lia].
      * done.
      * intros _. apply Hlength. lia.
    + subst result. rewrite removeOscillator_past by (fold N; lia). simpl.
      split; [|done]. split; [by right | done].
Qed.

(** *** Sequences of calls on a bank *)

Lemma OscillatorBank_calls_cons (c : OscillatorBank.Call)
    (cs : list OscillatorBank.Call) b :
  OscillatorBank.calls (c :: cs) b
  = OscillatorBank.calls cs (OscillatorBank.call c b).
Proof. reflexivity. Qed.

Lemma Voice_calls_cons (c : Voice.Call) (cs : list Voice.Call) v :
  Voice.calls (c :: cs) v = Voice.calls cs (Voice.call c v).
Proof. reflexivity. Qed.

Lemma OscillatorBank_call_gain (c : OscillatorBank.Call) b :
  gain_calls (OscillatorBank._gain (OscillatorBank.call c b))
  = gain_calls (OscillatorBank._gain b) ++ OscillatorBank_gain_effect c.
Proof.
  destruct c; simpl; rewrite ?app_nil_r; try done.
  - unfold OscillatorBank.play.
    by destruct (PlayState_eqb (OscillatorBank._state b) used).
  - by rewrite OscillatorBankFacts.bank_update_gain.
  - by rewrite OscillatorBankFacts.removeOscillator_rest.
  - unfold OscillatorBank.destroy.
    by destruct (PlayState_eqb (OscillatorBank._state b) playing).
Qed.

(** X8.  Of the methods of a bank only [setGain] and [destroy] call the
    bank's gain node: after any sequence of calls the node has received, in
    order, one linear ramp for each [setGain] (to the value given, zero
    included, ending at the time given or at the current time) and one
    [disconnect] for each [destroy].  For a bank from the constructor these
    come after [connect] and the ramp to 1. *)
Theorem X8_bank_gain_calls
    b (cs : list OscillatorBank.Call) (now : number)
    (partials : list Partial) :
  gain_calls (OscillatorBank._gain (OscillatorBank.calls cs b))
  = gain_calls (OscillatorBank._gain b)
    ++ flat_map OscillatorBank_gain_effect cs
  /\ gain_calls (OscillatorBank._gain
                   (OscillatorBank.calls cs
                      (OscillatorBank.new now partials)))
     = [connect_call; linearRampToValueAtTime 1%float now]
       ++ flat_map OscillatorBank_gain_effect cs.
Proof.
  assert (forall b',
            gain_calls (OscillatorBank._gain (OscillatorBank.calls cs b'))
            = gain_calls (OscillatorBank._gain b')
              ++ flat_map OscillatorBank_gain_effect cs) as Hcalls.
  { induction cs as [|c cs IH]; intros b'.
    - simpl. by rewrite app_nil_r.
    - rewrite OscillatorBank_calls_cons, IH, OscillatorBank_call_gain.
      simpl. by rewrite <- app_assoc. }
  split; [apply Hcalls|].
  by rewrite Hcalls, OscillatorBank_new_eq.
Qed.

Lemma OscillatorBank_call_state_pitch (c : OscillatorBank.Call) b :
  OscillatorBank._state b <> used ->
  match c with
  | OscillatorBank.call_play _ pitch _ =>
      OscillatorBank._state (OscillatorBank.call c b) = playing
      /\ OscillatorBank._pitch (OscillatorBank.call c b) = pitch
  | _ =>
      OscillatorBank._state (OscillatorBank.call c b)
        = OscillatorBank._state b
      /\ OscillatorBank._pitch (OscillatorBank.call c b)
         = OscillatorBank._pitch b
  end.
Proof.
  intros Hlive. destruct c; simpl; try done.
  - by rewrite OscillatorBank_play_live.
  - by rewrite OscillatorBankFacts.bank_update_reconciled.
  - by rewrite OscillatorBankFacts.removeOscillator_rest.
  - unfold OscillatorBank.destroy.
    by destruct (PlayState_eqb (OscillatorBank._state b) playing).
Qed.

Lemma OscillatorBank_calls_state_pitch (cs : list OscillatorBank.Call) b :
  OscillatorBank._state b <> used ->
  match OscillatorBank_last_play cs with
  | Some pitch =>
      OscillatorBank._state (OscillatorBank.calls cs b) = playing
      /\ OscillatorBank._pitch (OscillatorBank.calls cs b) = pitch
  | None =>
      OscillatorBank._state (OscillatorBank.calls cs b)
        = OscillatorBank._state b
      /\ OscillatorBank._pitch (OscillatorBank.calls cs b)
         = OscillatorBank._pitch b
  end.
Proof.
  revert b. induction cs as [|c cs IH]; intros b Hlive; [done|].
  rewrite OscillatorBank_calls_cons. cbn [OscillatorBank_last_play].
  specialize (IH (OscillatorBank.call c b)
                 (OscillatorBank_call_live c b Hlive)).
  destruct (OscillatorBank_last_play cs) as [pitch|]; [done|].
  pose proof (OscillatorBank_call_state_pitch c b Hlive) as Hcall.
  destruct IH as [-> ->]. by destruct c.
Qed.

(** X9.  After the constructor and any sequence of calls, a bank is
    [playing] at the pitch of the last [play] when there has been a [play],
    and [ready] at pitch 20 when there has been none: [stop] and [destroy]
    do not take a bank back to [ready], and nothing but [play] sets the
    pitch. *)
Theorem X9_bank_state_is_last_play
    (now : number) (partials : list Partial)
    (cs : list OscillatorBank.Call) :
  let b := OscillatorBank.calls cs (OscillatorBank.new now partials) in
  match OscillatorBank_last_play cs with
  | Some pitch =>
      OscillatorBank._state b = playing /\ OscillatorBank._pitch b = pitch
  | None =>
      OscillatorBank._state b = ready /\ OscillatorBank._pitch b = 20%float
  end.
Proof.
  cbv zeta.
  pose proof (OscillatorBank_calls_state_pitch cs
                (OscillatorBank.new now partials)) as Hcalls.
  rewrite OscillatorBank_new_eq in Hcalls. simpl in Hcalls.
  rewrite OscillatorBank_new_eq.
  destruct (OscillatorBank_last_play cs); by apply Hcalls.
Qed.

(** *** Sequences of calls on a voice *)

Lemma Voice_play_playing v (now pitch velocity : number)
    (time : option number) :
  Voice._state v = playing ->
  Voice.play now pitch velocity time v
  = {| Voice._id := Voice._id v;
       Voice._pitch := pitch;
       Voice._state := playing;
       Voice._oscillatorBanks :=
         map (OscillatorBank.play now pitch (Some (or_default now time)))
             (Voice._oscillatorBanks v);
       Voice._adsr := Voice._adsr v;
       Voice._gain :=
         {| gain_calls :=
              gain_calls (Voice._gain v)
              ++ [cancelScheduledValues (or_default now time);
                  exponentialRampToValueAtTime
                    (number_or (gain_value (Voice._gain v)) 0.0000000001)
                    (or_default now time);
                  exponentialRampToValueAtTime
                    (number_or (velocity * sustain (Voice._adsr v))
                               0.0000000001)
                    (or_default now time);
                  exponentialRampToValueAtTime
                    (number_or velocity 0.0000000001)
                    (or_default now time + attack (Voice._adsr v));
                  exponentialRampToValueAtTime
                    (number_or (velocity * sustain (Voice._adsr v))
                               0.0000000001)
                    (or_default now time + attack (Voice._adsr v)
                     + decay (Voice._adsr v))]%float;
            gain_value := gain_value (Voice._gain v) |} |}.
Proof.
  intros Hplaying. unfold Voice.play, Voice.set_pitch. simpl.
  rewrite !Hplaying. simpl.
  unfold Voice.setGain, Voice.set_gain, Voice.gainValue, GainNode_call.
  simpl. rewrite <- !app_assoc. reflexivity.
Qed.

Lemma Voice_call_state (c : Voice.Call) v :
  Voice._state (Voice.call c v) = Voice_state_step (Voice._state v) c.
Proof.
  destruct c; simpl; try done.
  - destruct (Voice._state v) eqn:Hstate.
    + by rewrite Voice_play_ready.
    + by rewrite Voice_play_playing.
    + by rewrite Voice_play_used.
  - destruct (decide (Voice._state v = used)) as [Hused|Hlive].
    + by rewrite VoiceFacts.voice_update_used.
    + by rewrite VoiceFacts.voice_update_reconciled.
Qed.

(** X10.  The state of a voice follows the three-state machine whatever
    the arguments of the calls: after any sequence of calls it is what the
    machine gives from the state before.  So a voice from the constructor
    is [used] once [destroy] has been called, else [playing] once [play]
    has been called, else [ready]; [release] does not take it back to
    [ready]. *)
Theorem X10_voice_state_machine v (cs : list Voice.Call) :
  Voice._state (Voice.calls cs v)
  = fold_left Voice_state_step cs (Voice._state v).
Proof.
  revert v. induction cs as [|c cs IH]; intros v; [done|].
  rewrite Voice_calls_cons, IH, Voice_call_state. reflexivity.
Qed.

Lemma number_or_floor (value : number) :
  falsy_number (number_or value 0.0000000001%float) = false.
Proof.
  unfold number_or. by destruct (falsy_number value) eqn:Hvalue.
Qed.

Lemma Voice_gain_call_ok_ramp (value time : number) :
  Voice_gain_call_ok
    (exponentialRampToValueAtTime (number_or value 0.0000000001%float) time)
  = true.
Proof. simpl. by rewrite number_or_floor. Qed.

Lemma Voice_call_gain_ok (c : Voice.Call) v :
  Forall (fun g => Voice_gain_call_ok g = true) (gain_calls (Voice._gain v)) ->
  Forall (fun g => Voice_gain_call_ok g = true)
         (gain_calls (Voice._gain (Voice.call c v))).
Proof.
  intros Hok. destruct c; simpl.
  - destruct (Voice._state v) eqn:Hstate.
    + rewrite Voice_play_ready by done. simpl.
      apply Forall_app. split; [done|].
      repeat (apply Forall_cons; split;
              [first [reflexivity | apply Voice_gain_call_ok_ramp]|]).
      apply Forall_nil_2.
    + rewrite Voice_play_playing by done. simpl.
      apply Forall_app. split; [done|].
      repeat (apply Forall_cons; split;
              [first [reflexivity | apply Voice_gain_call_ok_ramp]|]).
      apply Forall_nil_2.
    + by rewrite Voice_play_used.
  - unfold Voice.release, Voice.setGain, Voice.set_gain, GainNode_call.
    simpl. rewrite <- !app_assoc.
    apply Forall_app. split; [done|].
    repeat (apply Forall_cons; split;
            [first [reflexivity | apply Voice_gain_call_ok_ramp]|]).
    apply Forall_nil_2.
  - destruct (decide (Voice._state v = used)) as [Hused|Hlive].
    + by rewrite VoiceFacts.voice_update_used.
    + by rewrite VoiceFacts.voice_update_reconciled.
  - apply Forall_app. split; [done|].
    apply Forall_cons. split; [apply Voice_gain_call_ok_ramp|].
    apply Forall_nil_2.
  - done.
  - apply Forall_app. split; [done|].
    apply Forall_cons. split; [reflexivity | apply Forall_nil_2].
Qed.

(** X11.  After the constructor and any sequence of calls, the gain node of
    a voice has received no linear ramp, and no exponential ramp whose
    target is zero or [NaN]: every ramp of [play], [release] and [setGain]
    goes through the floor [1e-10]. *)
Theorem X11_voice_gain_never_ramps_to_zero
    (now : number) (random : string) (id : option string)
    (spectrum : Spectrum) (adsr : ADSR) (cs : list Voice.Call) :
  Forall (fun g => Voice_gain_call_ok g = true)
         (gain_calls
            (Voice._gain
               (Voice.calls cs (Voice.new now random id spectrum adsr)))).
Proof.
  assert (forall v,
            Forall (fun g => Voice_gain_call_ok g = true)
                   (gain_calls (Voice._gain v)) ->
            Forall (fun g => Voice_gain_call_ok g = true)
                   (gain_calls (Voice._gain (Voice.calls cs v)))) as Hcalls.
  { induction cs as [|c cs IH]; intros v Hok; [done|].
    rewrite Voice_calls_cons. apply IH. by apply Voice_call_gain_ok. }
  apply Hcalls. unfold Voice.new. simpl.
  apply Forall_cons. split; [reflexivity | apply Forall_nil_2].
Qed.

(** *** The banks of a voice *)

Lemma Forall_reconciled {A D} (P : A -> Prop)
    (upd : D -> A -> A) (mk : D -> A) (arr : list A) (ds : list D) :
  Forall P arr ->
  (forall a d, P a -> P (upd d a)) ->
  (forall d, P (mk d)) ->
  Forall P (reconciled upd mk arr ds).
Proof.
  intros Harr Hupd Hmk. unfold reconciled. apply Forall_app. split.
  - revert ds. induction Harr as [|a arr Ha Harr IH]; intros [|d ds];
      simpl; try apply Forall_nil_2.
    apply Forall_cons. split; [by apply Hupd | apply IH].
  - apply Forall_forall. intros a Ha.
    apply list_elem_of_In, in_map_iff in Ha as (d & <- & _). apply Hmk.
Qed.

Lemma map_reconciled {A D B} (g : A -> B) (h : D -> B)
    (upd : D -> A -> A) (mk : D -> A) (arr : list A) (ds : list D) :
  (forall a d, g (upd d a) = h d) ->
  (forall d, g (mk d) = h d) ->
  map g (reconciled upd mk arr ds) = map h ds.
Proof.
  intros Hupd Hmk. unfold reconciled. revert ds.
  induction arr as [|a arr IH]; intros ds; simpl.
  - rewrite ?drop_0, map_map. apply map_ext. intros d. apply Hmk.
  - destruct ds as [|d ds]; [done|]. simpl.
    by rewrite Hupd, <- IH.
Qed.

Lemma Voice_created_ready (now : number) v (layer : SpectralLayer) :
  Voice._state v = ready ->
  Voice.created now v layer = OscillatorBank.new now (partials layer).
Proof. intros Hready. unfold Voice.created. by rewrite Hready. Qed.

Lemma Voice_created_playing (now : number) v (layer : SpectralLayer) :
  Voice._state v = playing ->
  Voice.created now v layer
  = {| OscillatorBank._gain :=
         {| gain_calls := [connect_call; linearRampToValueAtTime 1 now];
            gain_value := 1 |};
       OscillatorBank._state := playing;
       OscillatorBank._pitch := Voice._pitch v;
       OscillatorBank._oscillators :=
         map (fun partial =>
                Oscillator_play (Voice._pitch v) (Some now)
                  (Oscillator_new partial))
             (partials layer) |}%float.
Proof.
  intros Hplaying. unfold Voice.created. rewrite Hplaying. simpl.
  rewrite OscillatorBank_new_eq.
  rewrite OscillatorBank_play_live by done. simpl.
  by rewrite map_map.
Qed.

Lemma Voice_call_synchronised (c : Voice.Call) v :
  Voice_synchronised v -> Voice_synchronised (Voice.call c v).
Proof.
  unfold Voice_synchronised. intros Hsync. destruct c; simpl.
  - (* play *)
    destruct (Voice._state v) eqn:Hstate.
    + rewrite Voice_play_ready by done. simpl.
      apply Forall_forall. intros b' Hb'.
      apply list_elem_of_In, in_map_iff in Hb' as (b & <- & Hb).
      apply list_elem_of_In in Hb.
      pose proof (proj1 (Forall_forall _ _) Hsync b Hb) as Hb_ready.
      rewrite OscillatorBank_play_live by (by rewrite Hb_ready). done.
    + rewrite Voice_play_playing by done. simpl.
      apply Forall_forall. intros b' Hb'.
      apply list_elem_of_In, in_map_iff in Hb' as (b & <- & Hb).
      apply list_elem_of_In in Hb.
      pose proof (proj1 (Forall_forall _ _) Hsync b Hb) as [Hb_playing _].
      rewrite OscillatorBank_play_live by (by rewrite Hb_playing). done.
    + rewrite Voice_play_used by done. by rewrite Hstate.
  - (* release *) done.
  - (* update *)
    destruct (Voice._state v) eqn:Hstate.
    + rewrite VoiceFacts.voice_update_reconciled by (by rewrite Hstate).
      simpl. rewrite Hstate. apply Forall_reconciled; [done| |].
      * intros b layer Hb.
        by rewrite OscillatorBankFacts.bank_update_state.
      * intros layer. rewrite Voice_created_ready by done.
        by rewrite OscillatorBank_new_eq.
    + rewrite VoiceFacts.voice_update_reconciled by (by rewrite Hstate).
      simpl. rewrite Hstate. apply Forall_reconciled; [done| |].
      * intros b layer [Hb_state Hb_pitch].
        by rewrite OscillatorBankFacts.bank_update_state,
                   OscillatorBankFacts.bank_update_pitch.
      * intros layer. by rewrite Voice_created_playing.
    + rewrite VoiceFacts.voice_update_used by done. by rewrite Hstate.
  - (* setGain *) done.
  - (* updateAdsr *) done.
  - (* destroy *) done.
Qed.

Lemma Voice_new_calls_synchronised
    (now : number) (random : string) (id : option string)
    (spectrum : Spectrum) (adsr : ADSR) (cs : list Voice.Call) :
  Voice_synchronised (Voice.calls cs (Voice.new now random id spectrum adsr)).
Proof.
  assert (forall v, Voice_synchronised v ->
                    Voice_synchronised (Voice.calls cs v)) as Hcalls.
  { induction cs as [|c cs IH]; intros v Hsync; [done|].
    rewrite Voice_calls_cons. apply IH. by apply Voice_call_synchronised. }
  apply Hcalls. unfold Voice_synchronised.
  assert (Voice._state (Voice.new now random id spectrum adsr) = ready)
    as -> by reflexivity.
  rewrite Voice_new_banks. apply Forall_forall. intros b Hb.
  apply list_elem_of_In, in_map_iff in Hb as (layer & <- & _).
  by rewrite OscillatorBank_new_eq.
Qed.

(** X12.  After the constructor and any sequence of calls of the voice's
    methods, the banks follow the voice: while the voice is [ready] every
    bank is [ready], and while it is [playing] every bank is [playing] at
    the voice's pitch, the banks that [update] has added since the [play]
    included. *)
Theorem X12_banks_follow_voice
    (now : number) (random : string) (id : option string)
    (spectrum : Spectrum) (adsr : ADSR) (cs : list Voice.Call) :
  Voice_synchronised (Voice.calls cs (Voice.new now random id spectrum adsr)).
Proof. apply Voice_new_calls_synchronised. Qed.

Lemma Voice_created_length (now : number) v (layer : SpectralLayer) :
  length (OscillatorBank._oscillators (Voice.created now v layer))
  = length (partials layer).
Proof.
  unfold Voice.created. rewrite OscillatorBank_new_eq.
  destruct (PlayState_eqb (Voice._state v) playing).
  - rewrite OscillatorBank_play_live by done. simpl.
    by rewrite !length_map.
  - simpl. by rewrite length_map.
Qed.

(** X13.  After [update] on a voice that is not [used], the banks have the
    shape of the spectrum: the bank at each index has as many oscillators
    as the layer at that index has partials.  The constructor leaves the
    same shape, so [getOscillators] then gives as many oscillators as the
    spectrum has partials. *)
Theorem X13_banks_have_the_shape_of_the_spectrum
    v (now : number) (spectrum : Spectrum)
    (random : string) (id : option string) (adsr : ADSR) :
  (Voice._state v <> used ->
   map (fun b => length (OscillatorBank._oscillators b))
       (Voice._oscillatorBanks (Voice.update now spectrum v))
   = map (fun layer => length (partials layer)) spectrum)
  /\ map (fun b => length (OscillatorBank._oscillators b))
         (Voice._oscillatorBanks (Voice.new now random id spectrum adsr))
     = map (fun layer => length (partials layer)) spectrum
  /\ length (Voice.getOscillators (Voice.new now random id spectrum adsr))
     = length (concat (map partials spectrum)).
Proof.
  split; [|split].
  - intros Hlive. rewrite VoiceFacts.voice_update_reconciled by done.
    simpl. apply map_reconciled.
    + intros b layer.
      by rewrite OscillatorBankFacts.bank_update_oscillators,
                 length_reconciled.
    + intros layer. apply Voice_created_length.
  - rewrite Voice_new_banks, map_map. apply map_ext. intros layer.
    rewrite OscillatorBank_new_eq. simpl. apply length_map.
  - rewrite getOscillators_concat, Voice_new_banks, map_map.
    rewrite (map_ext _ (fun layer => map Oscillator_new (partials layer)))
      by (intros layer; by rewrite OscillatorBank_new_eq).
    rewrite <- map_map, <- concat_map. apply length_map.
Qed.

Lemma concat_map_live (f : Oscillator -> Oscillator)
    (g : OscillatorBank.t Oscillator -> OscillatorBank.t Oscillator)
    (banks : list (OscillatorBank.t Oscillator)) :
  Forall (fun b => OscillatorBank._oscillators (g b)
                   = map f (OscillatorBank._oscillators b)) banks ->
  concat (map OscillatorBank._oscillators (map g banks))
  = map f (concat (map OscillatorBank._oscillators banks)).
Proof.
  induction 1 as [|b banks Hb Hbanks IH]; simpl; [done|].
  by rewrite map_app, Hb, IH.
Qed.

Lemma Voice_synchronised_live v :
  Voice_synchronised v -> Voice._state v <> used ->
  Forall (fun b => OscillatorBank._state b <> used)
         (Voice._oscillatorBanks v).
Proof.
  unfold Voice_synchronised. intros Hsync Hlive.
  destruct (Voice._state v); [| |done].
  - eapply Forall_impl; [exact Hsync|]. intros b Hb. by rewrite Hb.
  - eapply Forall_impl; [exact Hsync|]. intros b [Hb _]. by rewrite Hb.
Qed.

Lemma Voice_play_banks v (now pitch velocity : number)
    (time : option number) :
  Voice._state v <> used ->
  Voice._oscillatorBanks (Voice.play now pitch velocity time v)
  = map (OscillatorBank.play now pitch (Some (or_default now time)))
        (Voice._oscillatorBanks v).
Proof.
  intros Hlive. destruct (Voice._state v) eqn:Hstate; [| |done].
  - by rewrite Voice_play_ready.
  - by rewrite Voice_play_playing.
Qed.

(** X14.  On a voice that has come from the constructor by any sequence of
    calls and is not [used], [play(pitch, velocity, time)] plays every
    oscillator of every bank at that pitch and time: no bank returns at its
    guard. *)
Theorem X14_play_reaches_every_oscillator
    (now : number) (random : string) (id : option string)
    (spectrum : Spectrum) (adsr : ADSR) (cs : list Voice.Call)
    (now' pitch velocity : number) (time : option number) :
  let v := Voice.calls cs (Voice.new now random id spectrum adsr) in
  Voice._state v <> used ->
  Voice.getOscillators (Voice.play now' pitch velocity time v)
  = map (Oscillator_play pitch (Some (or_default now' time)))
        (Voice.getOscillators v).
Proof.
  intros v Hlive.
  assert (Voice_synchronised v) as Hsync
    by apply Voice_new_calls_synchronised.
  rewrite !getOscillators_concat, Voice_play_banks by done.
  apply concat_map_live.
  eapply Forall_impl; [exact (Voice_synchronised_live v Hsync Hlive)|].
  intros b Hb. by rewrite OscillatorBank_play_live.
Qed.

(** X15.  [Voice.destroy()] stops, at the current time, every oscillator of
    every bank, and disconnects the voice's gain node; it leaves the state
    of every bank as it was, and does not call [destroy] on any bank: the
    gain nodes of the banks receive no call. *)
Theorem X15_destroy_stops_every_oscillator v (now : number) :
  Voice.getOscillators (Voice.destroy now v)
  = map (Oscillator_stop now) (Voice.getOscillators v)
  /\ map OscillatorBank._state (Voice._oscillatorBanks (Voice.destroy now v))
     = map OscillatorBank._state (Voice._oscillatorBanks v)
  /\ map OscillatorBank._gain (Voice._oscillatorBanks (Voice.destroy now v))
     = map OscillatorBank._gain (Voice._oscillatorBanks v)
  /\ gain_calls (Voice._gain (Voice.destroy now v))
     = gain_calls (Voice._gain v) ++ [disconnect_call].
Proof.
  split; [|split; [|split]].
  - rewrite !getOscillators_concat. unfold Voice.destroy. simpl.
    apply concat_map_live. by apply Forall_forall.
  - unfold Voice.destroy. simpl. rewrite map_map. by apply map_ext.
  - unfold Voice.destroy. simpl. rewrite map_map. by apply map_ext.
  - done.
Qed.

(** *** The envelope *)

(** X16.  [play] on a voice that is already [playing] first cancels what is
    scheduled from [time] on, then ramps to the gain the node reads now and
    to [velocity * sustain], both ending at [time], and then schedules the
    attack and the decay as on a [ready] voice; each target that is zero or
    [NaN] is replaced by the floor [1e-10].  The voice stays [playing], at
    the new pitch, and every bank is sent [play(pitch, time)]. *)
Theorem X16_play_retrigger
    v (now pitch velocity : number) (time : option number) :
  Voice._state v = playing ->
  let t := or_default now time in
  let after := Voice.play now pitch velocity time v in
  let floor := 0.0000000001%float in
  Voice._state after = playing
  /\ Voice._pitch after = pitch
  /\ Voice._oscillatorBanks after
     = map (OscillatorBank.play now pitch (Some t)) (Voice._oscillatorBanks v)
  /\ gain_calls (Voice._gain after)
     = gain_calls (Voice._gain v)
       ++ [cancelScheduledValues t;
           exponentialRampToValueAtTime
             (number_or (gain_value (Voice._gain v)) floor) t;
           exponentialRampToValueAtTime
             (number_or (velocity * sustain (Voice._adsr v))%float floor) t;
           exponentialRampToValueAtTime
             (number_or velocity floor) (t + attack (Voice._adsr v))%float;
           exponentialRampToValueAtTime
             (number_or (velocity * sustain (Voice._adsr v))%float floor)
             (t + attack (Voice._adsr v) + decay (Voice._adsr v))%float].
Proof.
  intros Hplaying. cbv zeta. by rewrite Voice_play_playing.
Qed.

(** X17.  [release(time)], in every state of the voice, cancels what is
    scheduled from [time] on, ramps to the gain the node reads now (or to
    the floor when that is zero) ending at [time], and ramps to the floor
    [1e-10] ending at [time + release]; it sends nothing to the banks: the
    oscillators are not stopped. *)
Theorem X17_release_schedule v (now : number) (time : option number) :
  let t := or_default now time in
  let floor := 0.0000000001%float in
  gain_calls (Voice._gain (Voice.release now time v))
  = gain_calls (Voice._gain v)
    ++ [cancelScheduledValues t;
        exponentialRampToValueAtTime
          (number_or (gain_value (Voice._gain v)) floor) t;
        exponentialRampToValueAtTime
          floor (t + release (Voice._adsr v))%float]
  /\ Voice._oscillatorBanks (Voice.release now time v)
     = Voice._oscillatorBanks v
  /\ Voice.getOscillators (Voice.release now time v)
     = Voice.getOscillators v
  /\ Voice._pitch (Voice.release now time v) = Voice._pitch v.
Proof.
  cbv zeta. repeat split.
  unfold Voice.release, Voice.setGain, Voice.set_gain, Voice.gainValue,
    GainNode_call. simpl. by rewrite <- !app_assoc.
Qed.

(** X18.  [updateAdsr] only replaces the envelope: it calls nothing on the
    gain node, so what [play] has scheduled stays scheduled.  A [play] that
    comes after it on a [ready] voice takes attack, decay and sustain from
    the new envelope, and a [release] after it takes the new release
    time. *)
Theorem X18_updateAdsr_applies_to_later_calls
    v (adsr : ADSR) (now pitch velocity : number) (time : option number) :
  Voice._gain (Voice.updateAdsr adsr v) = Voice._gain v
  /\ Voice._oscillatorBanks (Voice.updateAdsr adsr v)
     = Voice._oscillatorBanks v
  /\ Voice._state (Voice.updateAdsr adsr v) = Voice._state v
  /\ (Voice._state v = ready ->
      gain_calls
        (Voice._gain
           (Voice.play now pitch velocity time (Voice.updateAdsr adsr v)))
      = gain_calls (Voice._gain v)
        ++ [exponentialRampToValueAtTime 0.0000000001 now;
            exponentialRampToValueAtTime
              (number_or velocity 0.0000000001)
              (or_default now time + attack adsr);
            exponentialRampToValueAtTime
              (number_or (velocity * sustain adsr) 0.0000000001)
              (or_default now time + attack adsr + decay adsr)]%float)
  /\ gain_calls
       (Voice._gain (Voice.release now time (Voice.updateAdsr adsr v)))
     = gain_calls (Voice._gain v)
       ++ [cancelScheduledValues (or_default now time);
           exponentialRampToValueAtTime
             (number_or (gain_value (Voice._gain v)) 0.0000000001)
             (or_default now time);
           exponentialRampToValueAtTime
             0.0000000001 (or_default now time + release adsr)]%float.
Proof.
  split; [done|]. split; [done|]. split; [done|]. split.
  - intros Hready. by rewrite Voice_play_ready.
  - unfold Voice.release, Voice.setGain, Voice.set_gain, Voice.gainValue,
      GainNode_call. simpl. by rewrite <- !app_assoc.
Qed.

(** *** Addresses *)

(** X19.  [get] gives [undefined] for every bank index that is negative, or
    the number of banks or more; and, at a bank that it reaches, for every
    partial index other than 0 that is negative, or the number of the
    bank's oscillators or more. *)
Theorem X19_get_out_of_range v (i j : Z) (partialIndex : option Z)
    (bank : OscillatorBank.t Oscillator) :
  (i < 0 \/ Z.of_nat (length (Voice._oscillatorBanks v)) <= i ->
   Voice.get (Some i) partialIndex v = Voice.undefined)
  /\ (i <> 0 ->
      js_index (Voice._oscillatorBanks v) i = Some bank ->
      j <> 0 ->
      j < 0 \/ Z.of_nat (length (OscillatorBank._oscillators bank)) <= j ->
      Voice.get (Some i) (Some j) v = Voice.undefined).
Proof.
  split.
  - intros Hout. unfold Voice.get. simpl.
    destruct (Z.eqb_spec i 0) as [Hzero|Hnonzero]; [done|].
    assert (js_index (Voice._oscillatorBanks v) i = None) as ->.
    { unfold js_index. destruct (Z.ltb_spec i 0); [done|].
      apply lookup_ge_None. lia. }
    simpl. by rewrite orb_true_r.
  - intros Hi Hbank Hj Hout. unfold Voice.get. simpl.
    assert ((i =? 0) = false) as -> by lia. rewrite Hbank. simpl.
    assert ((j =? 0) = false) as -> by lia. simpl.
    unfold OscillatorBank.oscillator, js_index.
    destruct (Z.ltb_spec j 0); [done|].
    assert (OscillatorBank._oscillators bank !! Z.to_nat j = None) as ->
      by (apply lookup_ge_None; lia).
    done.
Qed.

(** *** Detuning *)

(** X20.  For an oscillator whose [rate] reads what [setRate] was last
    given, [shiftRate(shift)] leaves every oscillator of the bank, in its
    place, with its own rate plus [shift]; the count of oscillators, the
    state, the pitch and the gain node of the bank stay as they were. *)
Theorem X20_shiftRate_adds_to_every_rate b (shift : number) :
  (forall rate osc, Oscillator_rate (Oscillator_setRate rate osc) = rate) ->
  map Oscillator_rate
      (OscillatorBank._oscillators (OscillatorBank.shiftRate shift b))
  = map (fun osc => (Oscillator_rate osc + shift)%float)
        (OscillatorBank._oscillators b)
  /\ length (OscillatorBank._oscillators (OscillatorBank.shiftRate shift b))
     = length (OscillatorBank._oscillators b)
  /\ OscillatorBank._state (OscillatorBank.shiftRate shift b)
     = OscillatorBank._state b
  /\ OscillatorBank._pitch (OscillatorBank.shiftRate shift b)
     = OscillatorBank._pitch b
  /\ OscillatorBank._gain (OscillatorBank.shiftRate shift b)
     = OscillatorBank._gain b.
Proof.
  intros Hrate. unfold OscillatorBank.shiftRate. simpl.
  split; [|split; [apply length_map | done]].
  rewrite map_map. apply map_ext. intros osc. apply Hrate.
Qed.

End Further.

(** ** The further properties on concrete banks and voices *)

(** A voice built from an empty spectrum has no oscillators. *)
Lemma X3_getOscillators_bank_major_witness :
  Voice._oscillatorBanks
    (Voice.new (Oscillator := Recorder.t) 0%float "0.8a3f" None [] adsr) = []
  /\ Voice.getOscillators
       (Voice.new (Oscillator := Recorder.t) 0%float "0.8a3f" None [] adsr)
     = [].
Proof.
  assert (Voice._oscillatorBanks
            (Voice.new (Oscillator := Recorder.t) 0%float "0.8a3f" None []
               adsr) = []) as Hnone by reflexivity.
  split; [exact Hnone|].
  destruct (X3_getOscillators_bank_major
              (Voice.new (Oscillator := Recorder.t) 0%float "0.8a3f" None []
                 adsr)
              0%float "0.8a3f" None [] adsr) as (_ & Hempty & _).
  exact (Hempty Hnone).
Defined.

(** An oscillator created on a bank of three that has been played at 440. *)
Lemma X5_createOscillator_appends_witness :
  OscillatorBank._state bank3 <> used
  /\ OscillatorBank._oscillators
       (OscillatorBank.createOscillator partial100
          (OscillatorBank.play 0%float 440%float (Some 1%float) bank3))
     = [Oscillator_play 440%float (Some 1%float) (Oscillator_new partial100);
        Oscillator_play 440%float (Some 1%float) (Oscillator_new partial200);
        Oscillator_play 440%float (Some 1%float) (Oscillator_new partial300);
        Oscillator_play 440%float None (Oscillator_new partial100)].
Proof.
  assert (OscillatorBank._state bank3 <> used) as Hlive
    by (vm_compute; discriminate).
  split; [exact Hlive|].
  destruct (X5_createOscillator_appends
              bank3 partial100 0%float 440%float (Some 1%float) [])
    as (_ & Hplayed & _).
  exact (Hplayed Hlive).
Defined.

(** [removeOscillator(-1)] on a bank of three leaves two oscillators. *)
Lemma X7_removeOscillator_undefined_witness :
  fst (OscillatorBank.removeOscillator (-1) bank3) <> None
  /\ length (OscillatorBank._oscillators
               (snd (OscillatorBank.removeOscillator (-1) bank3))) = 2%nat.
Proof.
  assert (fst (OscillatorBank.removeOscillator (-1) bank3) <> None)
    as Hsome by (vm_compute; discriminate).
  split; [exact Hsome|].
  destruct (X7_removeOscillator_undefined bank3 (-1)) as (_ & _ & Hless).
  exact (Hless Hsome).
Defined.

(** The spec's scenario for [update]: the first bank is left without
    oscillators and the second has one. *)
Lemma X13_banks_have_the_shape_of_the_spectrum_witness :
  Voice._state voice1 <> used
  /\ map (fun b => length (OscillatorBank._oscillators b))
         (Voice._oscillatorBanks
            (Voice.update 0%float
               [ {| partials := [] |}; {| partials := [partial200] |} ]
               voice1))
     = [0%nat; 1%nat].
Proof.
  assert (Voice._state voice1 <> used) as Hlive by (vm_compute; discriminate).
  split; [exact Hlive|].
  destruct (X13_banks_have_the_shape_of_the_spectrum
              voice1 0%float
              [ {| partials := [] |}; {| partials := [partial200] |} ]
              "0.8a3f" None adsr) as (Hshape & _).
  exact (Hshape Hlive).
Defined.

(** [play] on the voice of one layer after an [update] to two layers. *)
Lemma X14_play_reaches_every_oscillator_witness :
  Voice._state
    (Voice.calls
       [Voice.call_update 1%float
          [ {| partials := [partial100] |};
            {| partials := [partial200; partial300] |} ]]
       voice1) <> used
  /\ Voice.getOscillators
       (Voice.play 2%float 440%float 1%float None
          (Voice.calls
             [Voice.call_update 1%float
                [ {| partials := [partial100] |};
                  {| partials := [partial200; partial300] |} ]]
             voice1))
     = [Oscillator_play 440%float (Some 2%float)
          (Oscillator_update partial100 (Oscillator_new partial100));
        Oscillator_play 440%float (Some 2%float) (Oscillator_new partial200);
        Oscillator_play 440%float (Some 2%float) (Oscillator_new partial300)].
Proof.
  assert (Voice._state
            (Voice.calls
               [Voice.call_update 1%float
                  [ {| partials := [partial100] |};
                    {| partials := [partial200; partial300] |} ]]
               voice1) <> used) as Hlive by (vm_compute; discriminate).
  split; [exact Hlive|].
  exact (X14_play_reaches_every_oscillator
           0%float "0.8a3f" None [ {| partials := [partial100] |} ] adsr
           [Voice.call_update 1%float
              [ {| partials := [partial100] |};
                {| partials := [partial200; partial300] |} ]]
           2%float 440%float 1%float None Hlive).
Defined.

(** A second [play] on the voice of the spec's scenario. *)
Lemma X16_play_retrigger_witness :
  Voice._state (Voice.play 0%float 440%float 1%float None voice1) = playing
  /\ gain_calls
       (Voice._gain
          (Voice.play 1%float 220%float 1%float (Some 2%float)
             (Voice.play 0%float 440%float 1%float None voice1)))
     = [connect_call;
        exponentialRampToValueAtTime 0.0000000001%float 0%float;
        exponentialRampToValueAtTime 1%float 0.1%float;
        exponentialRampToValueAtTime 0.5%float 0.2%float;
        cancelScheduledValues 2%float;
        exponentialRampToValueAtTime 1%float 2%float;
        exponentialRampToValueAtTime 0.5%float 2%float;
        exponentialRampToValueAtTime 1%float 2.1%float;
        exponentialRampToValueAtTime 0.5%float (2.1 + 0.1)%float].
Proof.
  assert (Voice._state (Voice.play 0%float 440%float 1%float None voice1)
          = playing) as Hplaying by reflexivity.
  split; [exact Hplaying|].
  destruct (X16_play_retrigger
              (Voice.play 0%float 440%float 1%float None voice1)
              1%float 220%float 1%float (Some 2%float) Hplaying)
    as (_ & _ & _ & Hcalls).
  exact Hcalls.
Defined.

(** [play] after [updateAdsr] to an envelope that sustains at 0. *)
Lemma X18_updateAdsr_applies_to_later_calls_witness :
  Voice._state voice1 = ready
  /\ gain_calls
       (Voice._gain
          (Voice.play 0%float 440%float 1%float (Some 0%float)
             (Voice.updateAdsr adsr_sustain0 voice1)))
     = [connect_call;
        exponentialRampToValueAtTime 0.0000000001%float 0%float;
        exponentialRampToValueAtTime 1%float 0.1%float;
        exponentialRampToValueAtTime 0.0000000001%float 0.2%float].
Proof.
  assert (Voice._state voice1 = ready) as Hready by reflexivity.
  split; [exact Hready|].
  destruct (X18_updateAdsr_applies_to_later_calls
              voice1 adsr_sustain0 0%float 440%float 1%float (Some 0%float))
    as (_ & _ & _ & Hplay & _).
  exact (Hplay Hready).
Defined.

(** On a voice of three banks: bank index 5, and partial index 7 in the
    third bank. *)
Lemma X19_get_out_of_range_witness :
  Voice.get (Some 5) (Some 1) voice3 = Voice.undefined
  /\ Voice.get (Some (-1)) None voice3 = Voice.undefined
  /\ Voice.get (Some 2) (Some 7) voice3 = Voice.undefined.
Proof.
  destruct (X19_get_out_of_range voice3 5 7 (Some 1) bank3) as [Hbank5 _].
  destruct (X19_get_out_of_range voice3 (-1) 7 None bank3) as [Hbank_1 _].
  destruct (X19_get_out_of_range voice3 2 7 None bank3) as [_ Hpartial7].
  split; [apply Hbank5; right; simpl; lia|].
  split; [apply Hbank_1; left; lia|].
  apply Hpartial7; [lia | reflexivity | lia | right; simpl; lia].
Defined.

(** [shiftRate(5)] on the bank of three recording oscillators. *)
Lemma X20_shiftRate_adds_to_every_rate_witness :
  (forall (rate : number) (osc : Recorder.t),
     Oscillator_rate (Oscillator_setRate rate osc) = rate)
  /\ map Oscillator_rate
         (OscillatorBank._oscillators (OscillatorBank.shiftRate 5%float bank3))
     = [105%float; 205%float; 305%float].
Proof.
  assert (forall (rate : number) (osc : Recorder.t),
            Oscillator_rate (Oscillator_setRate rate osc) = rate) as Hrate
    by reflexivity.
  split; [exact Hrate|].
  destruct (X20_shiftRate_adds_to_every_rate bank3 5%float Hrate)
    as (Hrates & _).
  exact Hrates.
Defined.
